(** * ZWO EFW filter wheel and ZWO EAF focuser control programs

    A shallow embedding of [zwoefw-set.c] (filter wheel) and of its sibling
    focuser program, and the properties of their wire protocol and of their
    polling loops.

    - bytes ([uint8_t]) are [Z] in [0, 256), buffers are [list Z];
    - the hidapi library is an interface ([hidapi]) over an abstract device
      state; every call of the programs is logged as an [event];
    - the C functions live in a state/trace/error monad [M]: [goto] to a
      cleanup label and [exit] are results of a computation, the unbounded
      polling loops take fuel. *)

From Stdlib Require Import ZArith List String Ascii Bool Lia.
Import ListNotations.
Local Open Scope Z_scope.

(** ** Machine integers and byte buffers *)

Definition u8 (x : Z) : Z := x mod 256.
Definition u16 (x : Z) : Z := x mod 65536.

(** [#define ZWO_REPORT_LEN 16] *)
Definition ZWO_REPORT_LEN : Z := 16.
Definition ZWO_USB_VENDOR_ID : Z := 0x03c3.
Definition ZWO_USB_PRODUCT_ID_EFW : Z := 0x1f01.
Definition ZWO_USB_PRODUCT_ID_EAF : Z := 0x1f10.

(** [memset(buf, c, n)] on a fresh [uint8_t buf[n]]. *)
Definition memset (n : nat) (c : Z) : list Z := repeat (u8 c) n.

(** [buf[i] = v]; the programs never index outside the array, and the model
    leaves the buffer alone there. *)
Fixpoint store (buf : list Z) (i : nat) (v : Z) : list Z :=
  match buf, i with
  | [], _ => []
  | _ :: rest, O => u8 v :: rest
  | b :: rest, S i' => b :: store rest i' v
  end.

(** [buf[i]] *)
Definition load (buf : list Z) (i : nat) : Z := nth i buf 0.

(** [buf[i++] = v], on the pair of the buffer and the running index. *)
Definition store_next (bi : list Z * nat) (v : Z) : list Z * nat :=
  (store (fst bi) (snd bi) v, S (snd bi)).

(** A run of [buf[i++] = v] statements starting from [int i = 0]. *)
Definition store_seq (buf : list Z) (vs : list Z) : list Z :=
  fst (fold_left store_next vs (buf, O)).

(** What a read of at most [length buf] bytes into [buf] leaves there: the
    received bytes over the old contents. *)
Fixpoint overlay (buf data : list Z) : list Z :=
  match buf, data with
  | [], _ => []
  | _, [] => buf
  | _ :: buf', x :: data' => u8 x :: overlay buf' data'
  end.

(** [memcmp(a, b, n) != 0] *)
Fixpoint memcmp_differs (a b : list Z) (n : nat) : bool :=
  match n with
  | O => false
  | S n' => negb (load a 0 =? load b 0) || memcmp_differs (tl a) (tl b) n'
  end.

(** ** [strtol(s, NULL, 10)] of the C library, with a 64-bit [long] *)

Definition LONG_MAX : Z := 2 ^ 63 - 1.
Definition LONG_MIN : Z := - 2 ^ 63.

Definition isspace (c : ascii) : bool :=
  let n := Z.of_nat (nat_of_ascii c) in
  (n =? 32) || ((9 <=? n) && (n <=? 13)).

Definition isdigit (c : ascii) : bool :=
  let n := Z.of_nat (nat_of_ascii c) in
  (48 <=? n) && (n <=? 57).

Definition digit_value (c : ascii) : Z := Z.of_nat (nat_of_ascii c) - 48.

Fixpoint skip_spaces (s : string) : string :=
  match s with
  | String c s' => if isspace c then skip_spaces s' else s
  | EmptyString => s
  end.

(** The value of the longest prefix of decimal digits, [acc] being the value
    read so far. *)
Fixpoint digits_value (acc : Z) (s : string) : Z :=
  match s with
  | String c s' =>
      if isdigit c then digits_value (10 * acc + digit_value c) s' else acc
  | EmptyString => acc
  end.

Definition strtol (s : string) : Z :=
  match skip_spaces s with
  | String "-" r => Z.max LONG_MIN (- digits_value 0 r)
  | String "+" r => Z.min LONG_MAX (digits_value 0 r)
  | r => Z.min LONG_MAX (digits_value 0 r)
  end.

(** ** The hidapi interface and the trace of a run *)

(** [hid_device *]: [None] is the NULL handle. *)
Definition hid_device := unit.

Inductive stream := stdout | stderr.

Inductive event :=
| EvInit (res : Z)
| EvOpen (vendor product : Z) (handle : option hid_device)
| EvManufacturer (res : Z)
| EvProduct (res : Z)
| EvSend (data : list Z) (res : Z)
| EvGet (len : Z) (res : Z) (buf : list Z)
| EvClose
| EvHidExit
| EvUsleep (usec : Z)
| EvPrint (out : stream) (fmt : string) (args : list Z).

(** The library and the device behind it, as a state machine: each call
    answers from the current state and moves to the next one. *)
Record hidapi := {
  world : Type;
  on_init : world -> Z * world;
  on_open : Z -> Z -> world -> option hid_device * world;
  on_manufacturer : world -> Z * world;
  on_product : world -> Z * world;
  (** [hid_send_feature_report]: the bytes sent; the count written *)
  on_send : list Z -> world -> Z * world;
  (** [hid_get_feature_report]: report id and length asked; the count and
      the bytes received *)
  on_get : Z -> Z -> world -> (Z * list Z) * world
}.

Inductive label := errexit | errexitlast.

Inductive result (A : Type) :=
| Ret (a : A)          (* the computation went through *)
| Goto (l : label)     (* jump to a cleanup label of [main] *)
| Exit (code : Z)      (* [exit(code)] *)
| OutOfFuel.           (* a polling loop was cut *)
Arguments Ret {A} a.
Arguments Goto {A} l.
Arguments Exit {A} code.
Arguments OutOfFuel {A}.

Section Monad.
Context (api : hidapi).

Definition M (A : Type) : Type :=
  world api -> result A * world api * list event.

Definition ret {A} (a : A) : M A := fun w => (Ret a, w, []).

Definition bind {A B} (m : M A) (f : A -> M B) : M B :=
  fun w =>
    match m w with
    | (Ret a, w1, t1) => let '(r, w2, t2) := f a w1 in (r, w2, t1 ++ t2)
    | (Goto l, w1, t1) => (Goto l, w1, t1)
    | (Exit c, w1, t1) => (Exit c, w1, t1)
    | (OutOfFuel, w1, t1) => (OutOfFuel, w1, t1)
    end.

Definition goto {A} (l : label) : M A := fun w => (Goto l, w, []).
Definition exit {A} (code : Z) : M A := fun w => (Exit code, w, []).
Definition out_of_fuel {A} : M A := fun w => (OutOfFuel, w, []).

(** The code at a label: [m] runs, and a jump out of it lands in [h]. *)
Definition at_label {A} (m : M A) (h : label -> M A) : M A :=
  fun w =>
    match m w with
    | (Goto l, w1, t1) => let '(r, w2, t2) := h l w1 in (r, w2, t1 ++ t2)
    | other => other
    end.

Definition emit (e : event) : M unit := fun w => (Ret tt, w, [e]).

Definition hid_init : M Z :=
  fun w => let '(res, w1) := on_init api w in (Ret res, w1, [EvInit res]).

Definition hid_open (vendor product : Z) : M (option hid_device) :=
  fun w =>
    let '(h, w1) := on_open api vendor product w in
    (Ret h, w1, [EvOpen vendor product h]).

Definition hid_get_manufacturer_string (devh : hid_device) : M Z :=
  fun w =>
    let '(res, w1) := on_manufacturer api w in
    (Ret res, w1, [EvManufacturer res]).

Definition hid_get_product_string (devh : hid_device) : M Z :=
  fun w =>
    let '(res, w1) := on_product api w in (Ret res, w1, [EvProduct res]).

(** [hid_send_feature_report(devh, buf, len)] sends the first [len] bytes
    of [buf]. *)
Definition hid_send_feature_report
    (devh : hid_device) (buf : list Z) (len : Z) : M Z :=
  fun w =>
    let data := firstn (Z.to_nat len) buf in
    let '(res, w1) := on_send api data w in
    (Ret res, w1, [EvSend data res]).

(** [hid_get_feature_report(devh, buf, len)]: [buf[0]] is the report id;
    the result is the count and the buffer after the call. *)
Definition hid_get_feature_report
    (devh : hid_device) (buf : list Z) (len : Z) : M (Z * list Z) :=
  fun w =>
    let '((res, data), w1) := on_get api (load buf 0) len w in
    let buf' := overlay buf (firstn (Z.to_nat len) data) in
    (Ret (res, buf'), w1, [EvGet len res buf']).

Definition hid_close (devh : hid_device) : M unit := emit EvClose.
Definition hid_exit : M unit := emit EvHidExit.
Definition usleep (usec : Z) : M unit := emit (EvUsleep usec).

(** [printf]/[fprintf]: the format as written in the source and the
    arguments. *)
Definition fprintf (out : stream) (fmt : string) (args : list Z) : M unit :=
  emit (EvPrint out fmt args).
Definition printf := fprintf stdout.

(** [for (i = 0; i < ZWO_REPORT_LEN; i++) fprintf(stderr, " %02x", buf[i]);] *)
Fixpoint dump_bytes (buf : list Z) (i : nat) (n : nat) : M unit :=
  match n with
  | O => ret tt
  | S n' =>
      bind (fprintf stderr " %02x" [load buf i])
           (fun _ => dump_bytes buf (S i) n')
  end.
End Monad.

Arguments ret {api A} a.
Arguments bind {api A B} m f.
Arguments goto {api A} l.
Arguments exit {api A} code.
Arguments out_of_fuel {api A}.
Arguments at_label {api A} m h.

Declare Scope prog_scope.
Delimit Scope prog_scope with prog.
Notation "x <- m ;; k" := (bind m (fun x => k))
  (at level 61, m at next level, right associativity) : prog_scope.
Notation "' p <- m ;; k" := (bind m (fun p => k))
  (at level 61, p pattern, m at next level, right associativity) : prog_scope.
Notation "m ;; k" := (bind m (fun _ => k))
  (at level 61, right associativity) : prog_scope.
Local Open Scope prog_scope.

(** An out-parameter [T *p]: [None] is a NULL pointer, [Some v] points to a
    variable that holds [v]. *)
Definition deref (p : option Z) (old : Z) : Z :=
  match p with Some v => v | None => old end.

(** The outcome of a position query as the callers read the [int] result:
    [0] is settled (the out-parameters hold the values), [-1] is fatal,
    anything else is "wait it out". *)
Inductive DeviceStatus (V : Type) :=
| Settled (value : V)
| Moving
| Fatal.
Arguments Settled {V} value.
Arguments Moving {V}.
Arguments Fatal {V}.

(** ** The filter wheel program, [zwoefw-set.c] *)

Module EFW.
Section Program.
Context (api : hidapi).
(** Whether [__APPLE__] is defined at compile time. *)
Variable apple : bool.

Definition info_request : list Z :=
  store_seq (memset 17 0) [0x03; 0x7e; 0x5a; 0x02; 0x04].

Definition expected : list Z :=
  [0x01; 0x7e; 0x5a; 0x04; 0x03; 0x00; 0x09; 0x00;
   0x45; 0x46; 0x57; 0x2d; 0x53; 0x2d; 0x30; 0x00].

Definition efw_get_info (devh : hid_device) : M api Z :=
  let buf := info_request in
  res <- hid_send_feature_report api devh buf ZWO_REPORT_LEN;;
  if negb (res =? ZWO_REPORT_LEN) then ret (-1) else
  let buf := store (memset 17 0) 0 0x01 in
  '(res, buf) <- hid_get_feature_report api devh buf (1 + ZWO_REPORT_LEN);;
  if negb (res =? ZWO_REPORT_LEN) then ret (-1) else
  (if memcmp_differs expected buf 16 then
     fprintf api stderr "unexpected values in info report: " [];;
     dump_bytes api buf 0 16;;
     fprintf api stderr "\n" []
   else ret tt);;
  ret 0.

(** The frame of a set-position command. *)
Definition position_command (slot : Z) : list Z :=
  store_seq (memset 16 0) [0x03; 0x7e; 0x5a; 0x01; 0x02; slot].

Definition efw_set_position (devh : hid_device) (slot : Z) : M api Z :=
  if (slot <? 1) || (7 <? slot) then ret (-1) else
  let buf := position_command slot in
  res <- hid_send_feature_report api devh buf ZWO_REPORT_LEN;;
  if negb (res =? ZWO_REPORT_LEN) then ret (-1) else
  (* no response report for this *)
  ret 0.

Definition position_request : list Z :=
  store_seq (memset 17 0) [0x03; 0x7e; 0x5a; 0x02; 0x01].

(** The bytes of a position report that "seem to be constant". *)
Definition report_unexpected (buf : list Z) : bool :=
  negb (load buf 0 =? 0x01) ||
  negb (load buf 1 =? 0x7e) || negb (load buf 2 =? 0x5a) ||
  negb (load buf 3 =? 0x01) ||
  negb (load buf 10 =? 0x00) || negb (load buf 11 =? 0x00) ||
  negb (load buf 12 =? 0x00) || negb (load buf 13 =? 0x00) ||
  negb (load buf 14 =? 0x30) || negb (load buf 15 =? 0x00).

(** [efw_get_position(devh, slotret)]: the [int] result and what
    [slotret] points to afterwards. *)
Definition efw_get_position (devh : hid_device) (slotret : option Z)
  : M api (Z * option Z) :=
  match slotret with
  | None => ret (-1, slotret)
  | Some _ =>
      let buf := position_request in
      res <- hid_send_feature_report api devh buf ZWO_REPORT_LEN;;
      if negb (res =? ZWO_REPORT_LEN) then ret (-1, slotret) else
      let buf := store (memset 17 0) 0 0x01 in
      '(res, buf) <-
        hid_get_feature_report api devh buf (1 + ZWO_REPORT_LEN);;
      if negb (res =? ZWO_REPORT_LEN) then ret (-1, slotret) else
      (if report_unexpected buf then
         fprintf api stderr "unexpected values in position report: " [];;
         dump_bytes api buf 0 16;;
         fprintf api stderr "\n" []
       else ret tt);;
      let status := load buf 4 in (* 4=moving, 1=stable ? *)
      let errcode := load buf 5 in
      let slot_current := load buf 6 in
      let slot_max := load buf 9 in
      printf api "position report: status=%d, [%d, %d, %d], max=%d\n"
        [status; load buf 6; load buf 7; load buf 8; slot_max];;
      if (load buf 6 =? load buf 7) && (load buf 7 =? load buf 8)
         && (status =? 1)
      then ret (0, Some slot_current)
      else if (status =? 6) || negb (errcode =? 0)
      then ret (-1, slotret)
      else ret (1, slotret) (* caller should wait it out *)
  end.

(** The result of [efw_get_position] as [main] reads it. *)
Definition status_of (r : Z * option Z) : DeviceStatus Z :=
  if fst r =? 0 then Settled (deref (snd r) 0)
  else if fst r =? -1 then Fatal
  else Moving.

(** [uint8_t nextslot = ((slot - 1 + 1) % 7) + 1;] *)
Definition nextslot (slot : Z) : Z := u8 (Z.rem (slot - 1 + 1) 7 + 1).

(** The first [for (;;)] of [main]: poll until the wheel is settled. *)
Fixpoint wait_settled (fuel : nat) (handle : hid_device) (slot : Z)
  : M api Z :=
  match fuel with
  | O => out_of_fuel
  | S fuel' =>
      '(res, slotp) <- efw_get_position handle (Some slot);;
      let slot := deref slotp slot in
      if res =? -1 then
        fprintf api stderr
          "unrecoverable wheel error, needs physical reset\n" [];;
        goto errexit
      else if res =? 0 then ret slot
      else usleep api (500 * 1000);; wait_settled fuel' handle slot
  end.

(** [for (i = 0; i < 100; i++)] with [n] iterations left; the result is
    [i] and [slot] when the loop is left. *)
Fixpoint poll_window (n : nat) (i : Z) (handle : hid_device)
    (nextslot slot : Z) : M api (Z * Z) :=
  match n with
  | O => ret (i, slot)
  | S n' =>
      '(res, slotp) <- efw_get_position handle (Some slot);;
      let slot := deref slotp slot in
      if res =? -1 then
        fprintf api stderr
          "unrecoverable wheel error, needs physical reset\n" [];;
        goto errexit
      else if (res =? 0) && (slot =? nextslot) then ret (i, slot)
      else usleep api (500 * 1000);;
           poll_window n' (i + 1) handle nextslot slot
  end.

(** [while (slot != targetslot)]: the result is [slot] after the loop. *)
Fixpoint move_loop (fuel : nat) (handle : hid_device)
    (slot targetslot : Z) : M api Z :=
  if slot =? targetslot then ret slot else
  match fuel with
  | O => out_of_fuel
  | S fuel' =>
      let nextslot := nextslot slot in
      printf api "request slot %d\n" [nextslot];;
      r <- efw_set_position handle nextslot;;
      if negb (r =? 0) then goto errexit else
      '(_, slot) <- poll_window 100 0 handle nextslot slot;;
      printf api "current slot = %d\n" [slot];;
      move_loop fuel' handle slot targetslot
  end.

(** The argument block of [main], [argc] being the length of [argv]:
    [targetslot], or the jump to [errexitlast]. *)
Definition read_args (argv : list string) : M api Z :=
  if 1 <? Z.of_nat (List.length argv) then
    let argint := strtol (nth 1 argv EmptyString) in
    if (argint <? 1) || (7 <? argint) then
      fprintf api stderr "invalid filter slot requested\n" [];;
      goto errexitlast
    else ret (u8 argint)
  else ret 0.

(** The block under [#ifndef __APPLE__]: the two strings of the device. *)
Definition print_strings (devh : hid_device) : M api unit :=
  if apple then ret tt
  else
    res <- hid_get_manufacturer_string api devh;;
    if negb (res =? 0) then goto errexit else
    printf api "Manufacturer String: %ls\n" [];;
    res <- hid_get_product_string api devh;;
    if negb (res =? 0) then goto errexit else
    printf api "Product String: %ls\n" [].

(** [main] from the point where [handle] is known to be open up to the
    last [printf]: the strings, the identity probe, the first settle and
    the move. [uint8_t slot] starts uninitialised and is written by the
    first settled report before it is read; it starts as 0 here. *)
Definition session (fuel : nat) (devh : hid_device) (targetslot : Z)
  : M api unit :=
  print_strings devh;;
  r <- efw_get_info devh;;
  if negb (r =? 0) then goto errexit else
  slot <- wait_settled fuel devh 0;;
  let targetslot :=
    if targetslot =? 0 then slot (* no change requested *)
    else targetslot in
  slot <- move_loop fuel devh slot targetslot;;
  printf api "final slot = %d\n" [slot].

(** The code at [errexit:], falling through to [errexitlast:]. *)
Definition cleanup (handle : option hid_device) (l : label) : M api unit :=
  match l with
  | errexit =>
      match handle with
      | Some devh => hid_close api devh
      | None => ret tt
      end;;
      hid_exit api;;
      goto errexitlast
  | errexitlast => goto errexitlast
  end.

(** [main(argc, argv)]; the labels [errexit] and [errexitlast] are the
    two handlers. *)
Definition main (argv : list string) (fuel : nat) : M api unit :=
  at_label
    (targetslot <- read_args argv;;
     res <- hid_init api;;
     if negb (res =? 0) then
       fprintf api stderr "hid_init failed\n" [];;
       goto errexitlast
     else
     handle <- hid_open api ZWO_USB_VENDOR_ID ZWO_USB_PRODUCT_ID_EFW;;
     at_label
       match handle with
       | None =>
           fprintf api stderr "unable to open device\n" [];;
           goto errexit
       | Some devh =>
           session fuel devh targetslot;;
           hid_close api devh;;
           hid_exit api;;
           exit 0
       end
       (* errexit: *)
       (cleanup handle))
    (* errexitlast: *)
    (fun _ => exit 2).
End Program.
End EFW.

(** ** The focuser program *)

Module EAF.
Section Program.
Context (api : hidapi).

(** The frame of a set-position command. *)
Definition position_command (pos : Z) : list Z :=
  let buf := memset 16 0 in
  let buf :=
    store_seq buf
      [0x03; 0x7e; 0x5a; 0x03; 0x01; 0x00; 0x00; 0x00;
       Z.land (Z.shiftr pos 8) 0xff; Z.land (Z.shiftr pos 0) 0xff] in
  (* remainder seems unused? *)
  let buf := store buf 13 0x02 in
  let buf := store buf 14 0xea in
  store buf 15 0x60.

Definition eaf_set_position (devh : hid_device) (pos : Z) : M api Z :=
  let buf := position_command pos in
  res <- hid_send_feature_report api devh buf ZWO_REPORT_LEN;;
  if negb (res =? ZWO_REPORT_LEN) then ret (-1) else
  (* no response report for this *)
  ret 0.

Definition position_request : list Z :=
  store_seq (memset 17 0) [0x03; 0x7e; 0x5a; 0x02; 0x03].

Definition report_unexpected (buf : list Z) : bool :=
  negb (load buf 0 =? 0x01) ||
  negb (load buf 1 =? 0x7e) || negb (load buf 2 =? 0x5a) ||
  negb (load buf 3 =? 0x03) ||
  negb (load buf 5 =? 0x00) || negb (load buf 6 =? 0x00) ||
  negb (load buf 7 =? 0x00) ||
  negb (load buf 10 =? 0x00) ||
  negb (load buf 14 =? 0xea) || negb (load buf 15 =? 0x60).

(** [(buf[hi] << 8) | buf[lo]], stored in a [uint16_t]. *)
Definition be16 (buf : list Z) (hi lo : nat) : Z :=
  u16 (Z.lor (Z.shiftl (load buf hi) 8) (load buf lo)).

(** [eaf_get_position(devh, posret, posmaxret)]: the [int] result and
    what the two pointers point to afterwards. *)
Definition eaf_get_position
    (devh : hid_device) (posret posmaxret : option Z)
  : M api (Z * option Z * option Z) :=
  match posret with
  | None => ret (-1, posret, posmaxret)
  | Some _ =>
      let buf := position_request in
      res <- hid_send_feature_report api devh buf ZWO_REPORT_LEN;;
      if negb (res =? ZWO_REPORT_LEN) then ret (-1, posret, posmaxret) else
      let buf := store (memset 17 0) 0 0x01 in
      '(res, buf) <-
        hid_get_feature_report api devh buf (1 + ZWO_REPORT_LEN);;
      if negb (res =? ZWO_REPORT_LEN) then ret (-1, posret, posmaxret) else
      (if report_unexpected buf then
         fprintf api stderr "unexpected values in position report: " [];;
         dump_bytes api buf 0 16;;
         fprintf api stderr "\n" []
       else ret tt);;
      let status := load buf 4 in (* 1=moving, 0=stable ? *)
      let position := be16 buf 8 9 in
      let status2 := load buf 11 in (* no idea. *)
      let status3 := load buf 12 in (* no idea. *)
      printf api
        "position report: status=%d, status2=0x%02x, status3=0x%02x, position=%d\n"
        [status; status2; status3; position];;
      let posret := Some position in
      let posmaxret :=
        match posmaxret with
        | Some _ => Some (be16 buf 14 15)
        | None => None
        end in
      if negb (status =? 0) then ret (1, posret, posmaxret)
      else ret (0, posret, posmaxret)
  end.

(** The result of [eaf_get_position] as [main] reads it; the value of a
    settled focuser is its position and its maximum (0 where the caller
    passed no pointer). *)
Definition status_of (r : Z * option Z * option Z) : DeviceStatus (Z * Z) :=
  let '(res, posp, maxp) := r in
  if res =? 0 then Settled (deref posp 0, deref maxp 0)
  else if res =? -1 then Fatal
  else Moving.

(** [str[0]]: the terminating NUL for the empty string. *)
Definition first_char (s : string) : ascii :=
  match s with String c _ => c | EmptyString => zero end.

(** [str++] *)
Definition str_inc (s : string) : string :=
  match s with String _ r => r | EmptyString => s end.

(** The argument of [main]: [targetpos], [targetrel], [targetrelsign]
    after the parsing block, before the range test. *)
Definition parse_target (argv : list string)
  : Z * bool * option string :=
  if 1 <? Z.of_nat (List.length argv) then
    let str := nth 1 argv EmptyString in
    if Ascii.eqb (first_char str) "-" || Ascii.eqb (first_char str) "+"
    then (strtol (str_inc str), true, Some str)
    else (strtol str, false, None)
  else (-1, false, None).

(** [targetpos = pos + (targetpos * ( *targetrelsign == '-' ? -1 : 1));]
    when [targetrel] holds. *)
Definition resolve_target
    (pos targetpos : Z) (targetrel : bool) (targetrelsign : option string)
  : Z :=
  if targetrel then
    let sign :=
      match targetrelsign with Some s => first_char s | None => zero end in
    pos + targetpos * (if Ascii.eqb sign "-" then -1 else 1)
  else targetpos.

(** The first [for (;;)] of [main]: "in case it's moving when we
    start". *)
Fixpoint wait_settled (fuel : nat) (handle : hid_device) (pos posmax : Z)
  : M api (Z * Z) :=
  match fuel with
  | O => out_of_fuel
  | S fuel' =>
      '(res, posp, maxp) <-
        eaf_get_position handle (Some pos) (Some posmax);;
      let pos := deref posp pos in
      let posmax := deref maxp posmax in
      if res =? -1 then
        fprintf api stderr "unrecoverable error, needs physical reset\n" [];;
        goto errexit
      else if res =? 0 then ret (pos, posmax)
      else usleep api (500 * 1000);; wait_settled fuel' handle pos posmax
  end.

(** [while (pos != targetpos)]: the result is [pos] after the loop. *)
Fixpoint track_loop (fuel : nat) (handle : hid_device) (pos targetpos : Z)
  : M api Z :=
  if pos =? targetpos then ret pos else
  match fuel with
  | O => out_of_fuel
  | S fuel' =>
      '(res, posp, _) <- eaf_get_position handle (Some pos) None;;
      let pos := deref posp pos in
      if res =? -1 then
        fprintf api stderr "unrecoverable error, needs physical reset\n" [];;
        goto errexit
      else
      printf api "current pos = %d (target %ld)\n" [pos; targetpos];;
      if (res =? 0) && (pos =? targetpos) then ret pos
      else usleep api (500 * 1000);; track_loop fuel' handle pos targetpos
  end.

(** [if (targetpos != -1) { ... }]: resolve the target, test it against
    the device maximum, command the move and follow it. *)
Definition move (fuel : nat) (handle : hid_device) (pos posmax : Z)
    (targetpos : Z) (targetrel : bool) (targetrelsign : option string)
  : M api unit :=
  if negb (targetpos =? -1) then
    let targetpos := resolve_target pos targetpos targetrel targetrelsign in
    fprintf api stderr "requesting target %ld\n" [targetpos];;
    if (targetpos <? 0) || (posmax <? targetpos) then
      fprintf api stderr "invalid target %ld\n" [targetpos];;
      goto errexit
    else
    r <- eaf_set_position handle (u16 targetpos);;
    if negb (r =? 0) then goto errexit else
    track_loop fuel handle pos targetpos;;
    ret tt
  else ret tt.

(** The argument block of [main]: the parsed target, or the jump to
    [errexitlast]. *)
Definition read_args (argv : list string)
  : M api (Z * bool * option string) :=
  let '(targetpos, targetrel, targetrelsign) := parse_target argv in
  if (1 <? Z.of_nat (List.length argv))
     && ((targetpos <? 0) || (0xffff <? targetpos))
  then (* real max down below *)
    fprintf api stderr "invalid position requested\n" [];;
    goto errexitlast
  else ret (targetpos, targetrel, targetrelsign).

(** [main] from the point where [handle] is known to be open up to the
    end of the move. *)
Definition session (fuel : nat) (devh : hid_device)
    (targetpos : Z) (targetrel : bool) (targetrelsign : option string)
  : M api unit :=
  '(pos, posmax) <- wait_settled fuel devh 0 0;;
  printf api "current pos = %d (max %d)\n" [pos; posmax];;
  move fuel devh pos posmax targetpos targetrel targetrelsign.

(** The code at [errexit:], falling through to [errexitlast:]. *)
Definition cleanup (handle : option hid_device) (l : label) : M api unit :=
  match l with
  | errexit =>
      match handle with
      | Some devh => hid_close api devh
      | None => ret tt
      end;;
      hid_exit api;;
      goto errexitlast
  | errexitlast => goto errexitlast
  end.

Definition main (argv : list string) (fuel : nat) : M api unit :=
  at_label
    ('(targetpos, targetrel, targetrelsign) <- read_args argv;;
     res <- hid_init api;;
     if negb (res =? 0) then
       fprintf api stderr "hid_init failed\n" [];;
       goto errexitlast
     else
     handle <- hid_open api ZWO_USB_VENDOR_ID ZWO_USB_PRODUCT_ID_EAF;;
     at_label
       match handle with
       | None =>
           fprintf api stderr "unable to open device\n" [];;
           goto errexit
       | Some devh =>
           session fuel devh targetpos targetrel targetrelsign;;
           hid_close api devh;;
           hid_exit api;;
           exit 0
       end
       (* errexit: *)
       (cleanup handle))
    (* errexitlast: *)
    (fun _ => exit 2).
End Program.
End EAF.

(** ** Simulated devices, to run the programs on *)

Module Sim.

(** A device that accepts every command and answers every query with the
    same report. *)
Definition fixed_report (report : list Z) : hidapi := {|
  world := unit;
  on_init := fun w => (0, w);
  on_open := fun _ _ w => (Some tt, w);
  on_manufacturer := fun w => (0, w);
  on_product := fun w => (0, w);
  on_send := fun _ w => (16, w);
  on_get := fun _ _ w => ((16, report), w)
|}.

(** A device whose [n]-th transfer fails (counting sends and reads from
    0) and that otherwise behaves like [fixed_report]. *)
Definition failing_at (n : nat) (report : list Z) : hidapi := {|
  world := nat;
  on_init := fun w => (0, w);
  on_open := fun _ _ w => (Some tt, w);
  on_manufacturer := fun w => (0, w);
  on_product := fun w => (0, w);
  on_send := fun _ w => (if Nat.eqb w n then -1 else 16, S w);
  on_get := fun _ _ w => ((if Nat.eqb w n then -1 else 16, report), S w)
|}.

(** A seven-slot wheel: after a set-position command it reports "moving"
    for [delay] polls and then settles at the commanded slot. *)
Record wheel := {
  w_slot : Z;           (* slot the wheel rests at *)
  w_target : Z;         (* slot last commanded *)
  w_busy : nat;         (* polls left before it settles *)
  w_request : list Z    (* last request frame received *)
}.

Definition wheel_at (slot : Z) : wheel :=
  {| w_slot := slot; w_target := slot; w_busy := O; w_request := [] |}.

Definition wheel_report (status a b c : Z) : list Z :=
  [0x01; 0x7e; 0x5a; 0x01; status; 0x00; a; b; c; 0x07;
   0x00; 0x00; 0x00; 0x00; 0x30; 0x00; 0x00].

Definition wheel_send (delay : nat) (data : list Z) (w : wheel)
  : Z * wheel :=
  if (load data 3 =? 0x01) && (load data 4 =? 0x02) then
    let busy :=
      if (load data 5 =? w_target w) && negb (Nat.eqb (w_busy w) 0)
      then w_busy w else delay in
    (16, {| w_slot := w_slot w; w_target := load data 5;
            w_busy := busy; w_request := data |})
  else
    (16, {| w_slot := w_slot w; w_target := w_target w;
            w_busy := w_busy w; w_request := data |}).

Definition wheel_get (w : wheel) : (Z * list Z) * wheel :=
  if (load (w_request w) 3 =? 0x02) && (load (w_request w) 4 =? 0x04)
  then ((16, EFW.expected ++ [0]), w)
  else
    match w_busy w with
    | O =>
        ((16, wheel_report 1 (w_target w) (w_target w) (w_target w)),
         {| w_slot := w_target w; w_target := w_target w;
            w_busy := O; w_request := w_request w |})
    | S b =>
        ((16, wheel_report 4 (w_target w) (w_slot w) (w_target w)),
         {| w_slot := w_slot w; w_target := w_target w;
            w_busy := b; w_request := w_request w |})
    end.

Definition wheel_api (delay : nat) : hidapi := {|
  world := wheel;
  on_init := fun w => (0, w);
  on_open := fun _ _ w => (Some tt, w);
  on_manufacturer := fun w => (0, w);
  on_product := fun w => (0, w);
  on_send := wheel_send delay;
  on_get := fun _ _ w => wheel_get w
|}.

(** A focuser that travels [speed] steps per poll towards the commanded
    position. *)
Record focuser := {
  f_pos : Z;
  f_target : Z;
  f_max : Z;
  f_speed : Z
}.

Definition focuser_at (pos max speed : Z) : focuser :=
  {| f_pos := pos; f_target := pos; f_max := max; f_speed := speed |}.

Definition focuser_report (status pos max : Z) : list Z :=
  [0x01; 0x7e; 0x5a; 0x03; status; 0x00; 0x00; 0x00;
   pos / 256; pos mod 256; 0x00; 0x7f; 0xd2; 0x32;
   max / 256; max mod 256; 0x00].

Definition focuser_send (data : list Z) (f : focuser) : Z * focuser :=
  if (load data 3 =? 0x03) && (load data 4 =? 0x01) then
    (16, {| f_pos := f_pos f; f_target := 256 * load data 8 + load data 9;
            f_max := f_max f; f_speed := f_speed f |})
  else (16, f).

Definition focuser_get (f : focuser) : (Z * list Z) * focuser :=
  if f_pos f =? f_target f then
    ((16, focuser_report 0 (f_pos f) (f_max f)), f)
  else
    let pos :=
      if f_pos f <? f_target f
      then Z.min (f_target f) (f_pos f + f_speed f)
      else Z.max (f_target f) (f_pos f - f_speed f) in
    ((16, focuser_report 1 pos (f_max f)),
     {| f_pos := pos; f_target := f_target f;
        f_max := f_max f; f_speed := f_speed f |}).

Definition focuser_api : hidapi := {|
  world := focuser;
  on_init := fun w => (0, w);
  on_open := fun _ _ w => (Some tt, w);
  on_manufacturer := fun w => (0, w);
  on_product := fun w => (0, w);
  on_send := focuser_send;
  on_get := fun _ _ w => focuser_get w
|}.

End Sim.

(** ** Hosts without a usable device *)

Module Faulty.

(** A host where [hid_init] answers [code]. *)
Definition no_library (code : Z) : hidapi := {|
  world := unit;
  on_init := fun w => (code, w);
  on_open := fun _ _ w => (Some tt, w);
  on_manufacturer := fun w => (0, w);
  on_product := fun w => (0, w);
  on_send := fun _ w => (16, w);
  on_get := fun _ _ w => ((16, []), w)
|}.

(** A host with no device plugged in: [hid_open] returns NULL. *)
Definition no_device : hidapi := {|
  world := unit;
  on_init := fun w => (0, w);
  on_open := fun _ _ w => (None, w);
  on_manufacturer := fun w => (0, w);
  on_product := fun w => (0, w);
  on_send := fun _ w => (16, w);
  on_get := fun _ _ w => ((16, []), w)
|}.

End Faulty.

(** ** Reading a run *)

(** The exit status of a run, if it got that far. *)
Definition exit_status {A W} (r : result A * W * list event) : option Z :=
  match r with
  | (Exit code, _, _) => Some code
  | _ => None
  end.

(** The value a computation returned, if it returned. *)
Definition value_of {A W} (r : result A * W * list event) : option A :=
  match r with
  | (Ret a, _, _) => Some a
  | _ => None
  end.

Definition trace_of {A W} (r : result A * W * list event) : list event :=
  snd r.

(** Whether a run reached the device: any hidapi call at all. *)
Definition device_contact (t : list event) : bool :=
  existsb (fun e => match e with EvPrint _ _ _ => false | _ => true end) t.

(** The number of [usleep(500*1000)] calls of a trace. *)
Fixpoint sleeps (t : list event) : nat :=
  match t with
  | [] => O
  | EvUsleep usec :: t' =>
      if usec =? 500 * 1000 then S (sleeps t') else sleeps t'
  | _ :: t' => sleeps t'
  end.

(** *** The handle *)






(** *** The wheel *)

(** The slot a sent frame commands, when it is a set-position command of the
    wheel (command 0x01, subcommand 0x02). *)
Definition commanded_slot (data : list Z) : option Z :=
  if (load data 3 =? 0x01) && (load data 4 =? 0x02)
  then Some (load data 5) else None.

(** The slot a position report shows the wheel settled at. *)
Definition settled_slot (buf : list Z) : option Z :=
  if (load buf 6 =? load buf 7) && (load buf 7 =? load buf 8)
     && (load buf 4 =? 1)
  then Some (load buf 6) else None.

(** The slot of the last report that showed the wheel settled, [current]
    if the trace has none. *)
Fixpoint current_after (current : Z) (t : list event) : Z :=
  match t with
  | [] => current
  | EvGet _ res buf :: t' =>
      current_after
        (if res =? 16 then
           match settled_slot buf with Some s => s | None => current end
         else current) t'
  | _ :: t' => current_after current t'
  end.

(** Every set-position command of the trace asks for the slot right after
    the one the wheel was last seen settled at, [current] to begin with. *)
Fixpoint forward_only (current : Z) (t : list event) : Prop :=
  match t with
  | [] => True
  | e :: t' =>
      match e with
      | EvSend data _ =>
          match commanded_slot data with
          | Some s => s = (current - 1 + 1) mod 7 + 1
          | None => True
          end
      | _ => True
      end /\ forward_only (current_after current [e]) t'
  end.

(** The slots commanded during a run, in order. *)
Fixpoint commands (t : list event) : list Z :=
  match t with
  | [] => []
  | EvSend data _ :: t' =>
      match commanded_slot data with
      | Some s => s :: commands t'
      | None => commands t'
      end
  | _ :: t' => commands t'
  end.

(** What a wheel trace shows of a move: the slots commanded and, for each
    report read, the slot it shows the wheel settled at, if any. *)
Inductive step := Command (slot : Z) | Report (settled : option Z).

Fixpoint steps (t : list event) : list step :=
  match t with
  | [] => []
  | EvSend data _ :: t' =>
      match commanded_slot data with
      | Some s => Command s :: steps t'
      | None => steps t'
      end
  | EvGet _ res buf :: t' =>
      if res =? 16 then Report (settled_slot buf) :: steps t' else steps t'
  | _ :: t' => steps t'
  end.

(** What a run wrote to [stderr]. *)
Fixpoint complaints (t : list event) : list string :=
  match t with
  | [] => []
  | EvPrint stderr fmt _ :: t' => fmt :: complaints t'
  | _ :: t' => complaints t'
  end.

(** [n] polls in a row from the device state [w], none of them fatal and
    none showing the wheel settled at [next]: the slot last seen settled
    and the device state after them; [None] if some poll is fatal or
    shows the wheel settled at [next]. *)
Fixpoint unsettled_polls (api : hidapi) (devh : hid_device) (n : nat)
    (next slot : Z) (w : world api) : option (Z * world api) :=
  match n with
  | O => Some (slot, w)
  | S n' =>
      match EFW.efw_get_position api devh (Some slot) w with
      | (Ret r, w1, _) =>
          match EFW.status_of r with
          | Fatal => None
          | Settled s =>
              if s =? next then None
              else unsettled_polls api devh n' next s w1
          | Moving => unsettled_polls api devh n' next slot w1
          end
      | _ => None
      end
  end.

(** *** The focuser *)

(** The position a sent frame commands, when it is a set-position command
    of the focuser (command 0x03, subcommand 0x01). *)
Definition commanded_position (data : list Z) : option Z :=
  if (load data 3 =? 0x03) && (load data 4 =? 0x01)
  then Some (256 * load data 8 + load data 9) else None.

(** The positions commanded during a run, in order. *)
Fixpoint focuser_commands (t : list event) : list Z :=
  match t with
  | [] => []
  | EvSend data _ :: t' =>
      match commanded_position data with
      | Some p => p :: focuser_commands t'
      | None => focuser_commands t'
      end
  | _ :: t' => focuser_commands t'
  end.



(** ** Further readings of a run *)

(** The diagnostic dump of a 17-byte buffer: the message, its first 16
    bytes, a newline, all on [stderr]. *)
Definition dump_events (msg : string) (buf : list Z) : list event :=
  EvPrint stderr msg []
    :: map (fun i => EvPrint stderr " %02x" [load buf i]) (seq 0 16)
    ++ [EvPrint stderr "\n" []].

(** A feature-report transfer, and one that moved a wrong number of
    bytes. *)
Definition is_transfer (e : event) : bool :=
  match e with
  | EvSend _ _ | EvGet _ _ _ => true
  | _ => false
  end.

Definition failed_transfer (e : event) : bool :=
  match e with
  | EvSend _ res => negb (res =? 16)
  | EvGet _ res _ => negb (res =? 16)
  | _ => false
  end.

(** No transfer follows a failed one. *)
Fixpoint stops_at_failure (t : list event) : bool :=
  match t with
  | [] => true
  | e :: t' =>
      if failed_transfer e then negb (existsb is_transfer t')
      else stops_at_failure t'
  end.

(** The number of frames a trace sends. *)
Fixpoint sends (t : list event) : nat :=
  match t with
  | [] => O
  | EvSend _ _ :: t' => S (sends t')
  | _ :: t' => sends t'
  end.

(** A frame as both devices want it: 16 bytes, report id 0x03, then
    0x7e 0x5a. *)
Definition frame_ok (data : list Z) : bool :=
  (Z.of_nat (List.length data) =? 16)
  && (load data 0 =? 0x03) && (load data 1 =? 0x7e) && (load data 2 =? 0x5a).

(** Every send of the trace is a well-formed frame and every read asks for
    17 bytes into a 17-byte buffer. *)
Definition transfer_ok (e : event) : Prop :=
  match e with
  | EvSend data _ => frame_ok data = true
  | EvGet len _ buf => len = 17 /\ List.length buf = 17%nat
  | _ => True
  end.

(** The position of the last report read in full, [pos] if the trace has
    none: what the focuser's [main] holds in [pos]. *)
Fixpoint position_after (pos : Z) (t : list event) : Z :=
  match t with
  | [] => pos
  | EvGet _ res buf :: t' =>
      position_after
        (if res =? 16 then 256 * load buf 8 + load buf 9 else pos) t'
  | _ :: t' => position_after pos t'
  end.

(** The number of single steps the wheel takes from [slot] to [target]. *)
Definition steps_between (slot target : Z) : nat :=
  Z.to_nat ((target - slot) mod 7).

(** ** Example runs *)

Module Examples.

(** A report that shows the wheel settled at slot 3 and carries a nonzero
    error code. *)
Definition settled_with_error_code : list Z :=
  [0x01; 0x7e; 0x5a; 0x01; 0x01; 0x0c; 0x03; 0x03; 0x03; 0x07;
   0x00; 0x00; 0x00; 0x00; 0x30; 0x00; 0x00].

(** The wheel at slot 3, asked for slot 6; every step settles after two
    polls. *)
Definition wheel_3_to_6 :=
  EFW.main (Sim.wheel_api 2) false ["zwoefw-set"; "6"]%string 50
    (Sim.wheel_at 3).

(** The wheel at slot 3, asked for slot 4, and taking 150 polls to get
    there. *)
Definition slow_wheel_3_to_4 :=
  EFW.main (Sim.wheel_api 150) false ["zwoefw-set"; "4"]%string 50
    (Sim.wheel_at 3).

(** The focuser at position 100 of 60000. *)
Definition focuser_run (arg : string) :=
  EAF.main Sim.focuser_api ["zwoeaf-set"%string; arg] 50
    (Sim.focuser_at 100 60000 300).

End Examples.

(** ** Notions for the proofs *)

Definition is_byte (b : Z) : Prop := 0 <= b < 256.

Definition is_print (e : event) : Prop :=
  match e with EvPrint _ _ _ => True | _ => False end.


(** The only label the code jumps to once the handle is open. *)
Definition to_errexit (l : label) : Prop := l = errexit.

Definition no_wheel_command (e : event) : Prop :=
  match e with
  | EvSend data _ => commanded_slot data = None
  | _ => True
  end.

Definition no_focuser_command (e : event) : Prop :=
  match e with
  | EvSend data _ => commanded_position data = None
  | _ => True
  end.

(** The buffer [efw_get_position] and [eaf_get_position] decode, given the
    bytes the device answered: 17 bytes, report id first. *)
Definition report_buffer (data : list Z) : list Z :=
  overlay (store (memset 17 0) 0 0x01) (firstn 17 data).

(** A run that was not cut for lack of fuel. *)
Definition finished {A W} (r : result A * W * list event) : Prop :=
  match r with
  | (OutOfFuel, _, _) => False
  | _ => True
  end.

(** [m'] does what [m] does wherever [m] finishes. *)
Definition extends (api : hidapi) {A} (m m' : M api A) : Prop :=
  forall w, finished (m w) -> m' w = m w.

Section Notions.
Context (api : hidapi).

(** Printing only: [m] returns, leaves the device alone and emits nothing
    but output. *)
Definition quiet (m : M api unit) : Prop :=
  forall w, exists t, m w = (Ret tt, w, t) /\ Forall is_print t.

(** [m] emits only events in [P], jumps only to labels in [L] and does
    not call [exit]. *)
Definition confined {A} (P : event -> Prop) (L : label -> Prop)
    (m : M api A) : Prop :=
  forall w,
    match m w with
    | (Ret _, _, t) => Forall P t
    | (Goto l, _, t) => Forall P t /\ L l
    | (Exit _, _, _) => False
    | (OutOfFuel, _, t) => Forall P t
    end.

(** What [efw_get_position] makes of a report it read. *)
Definition efw_verdict (buf : list Z) (slotret : option Z) : Z * option Z :=
  if (load buf 6 =? load buf 7) && (load buf 7 =? load buf 8)
     && (load buf 4 =? 1)
  then (0, Some (load buf 6))
  else if (load buf 4 =? 6) || negb (load buf 5 =? 0)
  then (-1, slotret)
  else (1, slotret).

(** What [eaf_get_position] makes of a report it read. *)
Definition eaf_verdict (buf : list Z) (posmaxret : option Z)
  : Z * option Z * option Z :=
  (if negb (load buf 4 =? 0) then 1 else 0,
   Some (EAF.be16 buf 8 9),
   match posmaxret with
   | Some _ => Some (EAF.be16 buf 14 15)
   | None => None
   end).

(** The outcome of the argument block of the wheel's [main]. *)
Definition efw_target (argv : list string) : option Z :=
  if 1 <? Z.of_nat (List.length argv) then
    let argint := strtol (nth 1 argv EmptyString) in
    if (argint <? 1) || (7 <? argint) then None else Some (u8 argint)
  else Some 0.

(** The outcome of the argument block of the focuser's [main]. *)
Definition eaf_target (argv : list string)
  : option (Z * bool * option string) :=
  let '(targetpos, targetrel, targetrelsign) := EAF.parse_target argv in
  if (1 <? Z.of_nat (List.length argv))
     && ((targetpos <? 0) || (0xffff <? targetpos))
  then None
  else Some (targetpos, targetrel, targetrelsign).

(** What either [main] does around its session, once the arguments are
    accepted. *)
Definition around_session (vendor product : Z)
    (session : hid_device -> M api unit) (w : world api)
  : result unit * world api * list event :=
  let '(res, w1) := on_init api w in
  if negb (res =? 0) then
    (Exit 2, w1, [EvInit res; EvPrint stderr "hid_init failed\n" []])
  else
    let '(handle, w2) := on_open api vendor product w1 in
    match handle with
    | None =>
        (Exit 2, w2,
         [EvInit res; EvOpen vendor product None;
          EvPrint stderr "unable to open device\n" []; EvHidExit])
    | Some devh =>
        match session devh w2 with
        | (Ret _, w3, t) =>
            (Exit 0, w3,
             EvInit res :: EvOpen vendor product (Some devh) :: t
               ++ [EvClose; EvHidExit])
        | (Goto errexit, w3, t) =>
            (Exit 2, w3,
             EvInit res :: EvOpen vendor product (Some devh) :: t
               ++ [EvClose; EvHidExit])
        | (Goto errexitlast, w3, t) =>
            (Exit 2, w3,
             EvInit res :: EvOpen vendor product (Some devh) :: t)
        | (Exit code, w3, t) =>
            (Exit code, w3,
             EvInit res :: EvOpen vendor product (Some devh) :: t)
        | (OutOfFuel, w3, t) =>
            (OutOfFuel, w3,
             EvInit res :: EvOpen vendor product (Some devh) :: t)
        end
    end.
End Notions.

(** No transfer of the trace failed. *)
Definition clean (t : list event) : Prop :=
  existsb failed_transfer t = false.

(** The trace has no transfer at all. *)
Definition silent (t : list event) : Prop :=
  existsb is_transfer t = false.

Section FailFast.
Context (api : hidapi).

(** [m] stops talking to the device at the first failed transfer: a
    result [bad] tells the caller of it, a result that is not [bad]
    comes with a clean trace, and a jump goes to [errexit]. *)
Definition fail_fast {A} (bad : A -> bool) (m : M api A) : Prop :=
  forall w,
    match m w with
    | (Ret a, _, t) =>
        stops_at_failure t = true /\ (bad a = false -> clean t)
    | (Goto l, _, t) => l = errexit /\ stops_at_failure t = true
    | (Exit _, _, _) => False
    | (OutOfFuel, _, t) => clean t
    end.

(** [m] passes a failure on without another transfer: it returns a [bad]
    result or jumps to [errexit]. *)
Definition gives_up {A} (bad : A -> bool) (m : M api A) : Prop :=
  forall w,
    match m w with
    | (Ret a, _, t) => bad a = true /\ silent t
    | (Goto l, _, t) => l = errexit /\ silent t
    | _ => False
    end.
End FailFast.

(** * Properties *)

(** ** Bytes and buffers *)

Lemma u8_range x : is_byte (u8 x).
Proof. unfold is_byte, u8. apply Z.mod_pos_bound. lia. Qed.

Lemma u8_small x : is_byte x -> u8 x = x.
Proof. unfold is_byte, u8. intros. apply Z.mod_small. lia. Qed.

Lemma overlay_bytes buf : Forall is_byte buf ->
  forall data, Forall is_byte (overlay buf data).
Proof.
  induction 1 as [|b buf Hb Hbuf IH]; intros data; simpl.
  - constructor.
  - destruct data as [|x data].
    + constructor; assumption.
    + constructor; [apply u8_range | apply IH].
Qed.

Lemma load_byte buf i : Forall is_byte buf -> is_byte (load buf i).
Proof.
  unfold load. intros H. revert i.
  induction H as [|b buf Hb Hbuf IH]; intros [|i]; simpl;
    try (unfold is_byte; lia); auto.
Qed.

Lemma report_buffer_byte data i : is_byte (load (report_buffer data) i).
Proof.
  apply load_byte. unfold report_buffer. apply overlay_bytes.
  cbv [memset repeat store]. repeat constructor; apply u8_range.
Qed.

(** A byte has no bit at or above position 8. *)
Lemma byte_high_bits b n : is_byte b -> 8 <= n -> Z.testbit b n = false.
Proof.
  unfold is_byte. intros Hb Hn.
  destruct (Z.eq_dec b 0) as [->|Hnz]; [apply Z.bits_0|].
  apply Z.bits_above_log2; [lia|].
  apply Z.lt_le_trans with 8; [|exact Hn].
  apply Z.log2_lt_pow2; [lia|]. change (2 ^ 8) with 256. lia.
Qed.

(** [(hi << 8) | lo] is the big-endian value of the two bytes. *)
Lemma be_bytes hi lo :
  is_byte hi -> is_byte lo -> u16 (Z.lor (Z.shiftl hi 8) lo) = 256 * hi + lo.
Proof.
  intros Hhi Hlo.
  assert (Hdisjoint : Z.land (Z.shiftl hi 8) lo = 0).
  { apply Z.bits_inj'. intros n Hn.
    rewrite Z.land_spec, Z.bits_0.
    destruct (Z.ltb_spec n 8).
    - rewrite Z.shiftl_spec_low by lia. reflexivity.
    - rewrite (byte_high_bits lo n) by assumption. apply andb_false_r. }
  rewrite <- Z.lxor_lor, <- Z.add_nocarry_lxor by exact Hdisjoint.
  rewrite Z.shiftl_mul_pow2 by lia. change (2 ^ 8) with 256.
  unfold is_byte in *. unfold u16. rewrite Z.mod_small; lia.
Qed.

Lemma report_be16 data hi lo :
  EAF.be16 (report_buffer data) hi lo =
  256 * load (report_buffer data) hi + load (report_buffer data) lo.
Proof. unfold EAF.be16. apply be_bytes; apply report_buffer_byte. Qed.

Lemma high_byte pos :
  0 <= pos <= 65535 -> u8 (Z.land (Z.shiftr pos 8) 0xff) = pos / 256.
Proof.
  intros H. change 0xff with (Z.ones 8).
  rewrite Z.land_ones, Z.shiftr_div_pow2 by lia.
  change (2 ^ 8) with 256.
  assert (0 <= pos / 256 < 256).
  { split; [apply Z.div_pos; lia | apply Z.div_lt_upper_bound; lia]. }
  rewrite (Z.mod_small (pos / 256)) by lia.
  apply u8_small. assumption.
Qed.

Lemma low_byte pos : u8 (Z.land (Z.shiftr pos 0) 0xff) = pos mod 256.
Proof.
  change 0xff with (Z.ones 8).
  rewrite Z.land_ones, Z.shiftr_0_r by lia.
  change (2 ^ 8) with 256. unfold u8. apply Z.mod_mod. lia.
Qed.

Lemma rem7_range slot : 0 <= slot -> 0 <= Z.rem slot 7 < 7.
Proof.
  intros H. rewrite Z.rem_mod_nonneg by lia. apply Z.mod_pos_bound. lia.
Qed.

Lemma nextslot_byte slot : 0 <= slot -> 1 <= EFW.nextslot slot <= 7.
Proof.
  intros H. unfold EFW.nextslot.
  replace (slot - 1 + 1) with slot by lia.
  pose proof (rem7_range slot H).
  rewrite u8_small by (unfold is_byte; lia). lia.
Qed.

Lemma nextslot_forward slot :
  0 <= slot -> EFW.nextslot slot = (slot - 1 + 1) mod 7 + 1.
Proof.
  intros H. unfold EFW.nextslot. rewrite Z.rem_mod_nonneg by lia.
  apply u8_small. unfold is_byte.
  pose proof (Z.mod_pos_bound (slot - 1 + 1) 7). lia.
Qed.

Lemma position_command_bytes slot :
  EFW.position_command slot =
    [0x03; 0x7e; 0x5a; 0x01; 0x02; u8 slot; 0; 0; 0; 0; 0; 0; 0; 0; 0; 0].
Proof. reflexivity. Qed.

(** ** Reading traces piecewise *)





Lemma current_after_app t1 : forall current t2,
  current_after current (t1 ++ t2) =
  current_after (current_after current t1) t2.
Proof.
  induction t1 as [|e t1 IH]; intros current t2; [reflexivity|].
  destruct e; simpl; apply IH.
Qed.

Lemma forward_only_app t1 : forall current t2,
  forward_only current (t1 ++ t2) <->
  forward_only current t1 /\ forward_only (current_after current t1) t2.
Proof.
  induction t1 as [|e t1 IH]; intros current t2.
  - simpl. tauto.
  - change ((e :: t1) ++ t2) with (e :: (t1 ++ t2)).
    cbn [forward_only]. rewrite IH.
    change (e :: t1) with ([e] ++ t1). rewrite current_after_app. tauto.
Qed.

Lemma commands_app t1 t2 : commands (t1 ++ t2) = commands t1 ++ commands t2.
Proof.
  induction t1 as [|e t1 IH]; [reflexivity|].
  destruct e; cbn [commands app]; try apply IH.
  destruct (commanded_slot data); cbn [app]; rewrite IH; reflexivity.
Qed.

Lemma sleeps_app t1 t2 : sleeps (t1 ++ t2) = (sleeps t1 + sleeps t2)%nat.
Proof.
  induction t1 as [|e t1 IH]; [reflexivity|].
  destruct e; cbn [sleeps app]; try apply IH.
  rewrite IH. destruct (usec =? 500 * 1000); reflexivity.
Qed.

Lemma focuser_commands_app t1 t2 :
  focuser_commands (t1 ++ t2) = focuser_commands t1 ++ focuser_commands t2.
Proof.
  induction t1 as [|e t1 IH]; [reflexivity|].
  destruct e; cbn [focuser_commands app]; try apply IH.
  destruct (commanded_position data); cbn [app]; rewrite IH; reflexivity.
Qed.

Lemma no_focuser_commands t :
  Forall no_focuser_command t -> focuser_commands t = [].
Proof.
  induction 1 as [|e t He Ht IH]; [reflexivity|].
  destruct e; cbn [focuser_commands]; try exact IH.
  cbn in He. rewrite He. exact IH.
Qed.

(** A trace without wheel commands is forward-only from anywhere. *)
Lemma no_wheel_commands t :
  Forall no_wheel_command t ->
  (forall current, forward_only current t) /\ commands t = [].
Proof.
  induction 1 as [|e t He Ht (IHf & IHk)];
    [split; [intros; exact I | reflexivity]|].
  split.
  - intros current. cbn [forward_only]. split; [|apply IHf].
    destruct e; try exact I. cbn in He. rewrite He. exact I.
  - destruct e; cbn [commands]; try exact IHk.
    cbn in He. rewrite He. exact IHk.
Qed.

(** Output is invisible to every reading of a trace. *)
Lemma prints_invisible t :
  Forall is_print t ->
  (forall current, current_after current t = current)
  /\ (forall current, forward_only current t)
  /\ commands t = []
  /\ sleeps t = O.
Proof.
  induction 1 as [|e t He Ht (IHc & IHf & IHk & IHs)].
  - repeat split.
  - destruct e; try contradiction. repeat split; cbn; auto.
Qed.

(** ** One position query *)

Section Queries.
Context (api : hidapi).

Lemma quiet_ret : quiet api (ret tt).
Proof. intros w. exists []. split; [reflexivity | constructor]. Qed.

Lemma quiet_fprintf out fmt args : quiet api (fprintf api out fmt args).
Proof.
  intros w. eexists. split; [reflexivity|].
  constructor; [exact I | constructor].
Qed.

Lemma quiet_bind (m k : M api unit) :
  quiet api m -> quiet api k -> quiet api (m;; k).
Proof.
  intros Hm Hk w.
  destruct (Hm w) as [t1 [E1 P1]]. destruct (Hk w) as [t2 [E2 P2]].
  exists (t1 ++ t2). unfold bind. rewrite E1, E2.
  split; [reflexivity | apply Forall_app; split; assumption].
Qed.

Lemma quiet_dump buf n : forall i, quiet api (dump_bytes api buf i n).
Proof.
  induction n as [|n IH]; intros i; simpl.
  - apply quiet_ret.
  - apply quiet_bind; [apply quiet_fprintf | apply IH].
Qed.

(** The diagnostic dump of a report with unexpected constant bytes. *)
Lemma quiet_report (c : bool) msg buf :
  quiet api
    (if c then
       fprintf api stderr msg [];;
       dump_bytes api buf 0 16;;
       fprintf api stderr "\n" []
     else ret tt).
Proof.
  destruct c; [|apply quiet_ret].
  apply quiet_bind; [apply quiet_fprintf|].
  apply quiet_bind; [apply quiet_dump | apply quiet_fprintf].
Qed.

(** [efw_get_position] by the outcome of its two transfers. *)
Lemma efw_get_position_cases devh old w :
  let '(sres, w1) := on_send api (firstn 16 EFW.position_request) w in
  let '((gres, data), w2) := on_get api 1 17 w1 in
  let buf := report_buffer data in
  exists t,
    Forall is_print t /\
    EFW.efw_get_position api devh (Some old) w =
      if negb (sres =? 16) then
        (Ret (-1, Some old), w1,
         [EvSend (firstn 16 EFW.position_request) sres])
      else if negb (gres =? 16) then
        (Ret (-1, Some old), w2,
         [EvSend (firstn 16 EFW.position_request) sres;
          EvGet 17 gres buf])
      else
        (Ret (efw_verdict buf (Some old)), w2,
         EvSend (firstn 16 EFW.position_request) sres
           :: EvGet 17 gres buf :: t).
Proof.
  destruct (on_send api _ w) as [sres w1] eqn:Hs.
  destruct (on_get api 1 17 w1) as [[gres data] w2] eqn:Hg.
  cbv zeta.
  unfold EFW.efw_get_position.
  unfold bind at 1. unfold hid_send_feature_report.
  change (Z.to_nat ZWO_REPORT_LEN) with 16%nat. rewrite Hs.
  change ZWO_REPORT_LEN with 16.
  destruct (negb (sres =? 16)).
  { exists []. split; [constructor | reflexivity]. }
  unfold bind at 1. unfold hid_get_feature_report.
  change (load (store (memset 17 0) 0 1) 0) with 1.
  change (1 + 16) with 17. rewrite Hg.
  change (Z.to_nat 17) with 17%nat.
  fold (report_buffer data).
  destruct (negb (gres =? 16)).
  { exists []. split; [constructor | reflexivity]. }
  set (buf := report_buffer data).
  destruct (quiet_report (EFW.report_unexpected buf)
              "unexpected values in position report: " buf w2)
    as [t1 [E1 P1]].
  unfold bind at 1. rewrite E1.
  unfold bind, printf, fprintf, emit, ret, efw_verdict.
  eexists. split; cycle 1.
  { destruct ((load buf 6 =? load buf 7) && (load buf 7 =? load buf 8)
              && (load buf 4 =? 1)); [reflexivity|].
    destruct ((load buf 4 =? 6) || negb (load buf 5 =? 0)); reflexivity. }
  apply Forall_app; split; [assumption | repeat constructor].
Qed.

(** [eaf_get_position] by the outcome of its two transfers. *)
Lemma eaf_get_position_cases devh old posmaxret w :
  let '(sres, w1) := on_send api (firstn 16 EAF.position_request) w in
  let '((gres, data), w2) := on_get api 1 17 w1 in
  let buf := report_buffer data in
  exists t,
    Forall is_print t /\
    EAF.eaf_get_position api devh (Some old) posmaxret w =
      if negb (sres =? 16) then
        (Ret (-1, Some old, posmaxret), w1,
         [EvSend (firstn 16 EAF.position_request) sres])
      else if negb (gres =? 16) then
        (Ret (-1, Some old, posmaxret), w2,
         [EvSend (firstn 16 EAF.position_request) sres;
          EvGet 17 gres buf])
      else
        (Ret (eaf_verdict buf posmaxret), w2,
         EvSend (firstn 16 EAF.position_request) sres
           :: EvGet 17 gres buf :: t).
Proof.
  destruct (on_send api _ w) as [sres w1] eqn:Hs.
  destruct (on_get api 1 17 w1) as [[gres data] w2] eqn:Hg.
  cbv zeta.
  unfold EAF.eaf_get_position.
  unfold bind at 1. unfold hid_send_feature_report.
  change (Z.to_nat ZWO_REPORT_LEN) with 16%nat. rewrite Hs.
  change ZWO_REPORT_LEN with 16.
  destruct (negb (sres =? 16)).
  { exists []. split; [constructor | reflexivity]. }
  unfold bind at 1. unfold hid_get_feature_report.
  change (load (store (memset 17 0) 0 1) 0) with 1.
  change (1 + 16) with 17. rewrite Hg.
  change (Z.to_nat 17) with 17%nat.
  fold (report_buffer data).
  destruct (negb (gres =? 16)).
  { exists []. split; [constructor | reflexivity]. }
  set (buf := report_buffer data).
  destruct (quiet_report (EAF.report_unexpected buf)
              "unexpected values in position report: " buf w2)
    as [t1 [E1 P1]].
  unfold bind at 1. rewrite E1.
  unfold bind, printf, fprintf, emit, ret, eaf_verdict.
  eexists. split; cycle 1.
  { destruct (negb (load buf 4 =? 0)); reflexivity. }
  apply Forall_app; split; [assumption | repeat constructor].
Qed.

(** One poll of the wheel, as the readings of a trace see it. *)
Lemma efw_get_position_seen devh slot w :
  exists res slot' w' t,
    EFW.efw_get_position api devh (Some slot) w
      = (Ret (res, Some slot'), w', t)
    /\ (forall current, forward_only current t)
    /\ current_after slot t = slot'
    /\ (0 <= slot -> 0 <= slot')
    /\ (res <> 0 -> slot' = slot)
    /\ sleeps t = O
    /\ commands t = []
    /\ (res = 0 ->
        0 <= slot' /\ forall current, current_after current t = slot').
Proof.
  pose proof (efw_get_position_cases devh slot w) as H.
  destruct (on_send api _ w) as [sres w1].
  destruct (on_get api 1 17 w1) as [[gres data] w2].
  cbv zeta in H. destruct H as [t [Hp E]]. rewrite E. clear E.
  destruct (Z.eqb_spec sres 16) as [Es|Es]; cbn [negb].
  2:{ do 4 eexists. split; [reflexivity|]. cbn.
      repeat split; auto; discriminate. }
  destruct (Z.eqb_spec gres 16) as [Eg|Eg]; cbn [negb].
  2:{ do 4 eexists. split; [reflexivity|]. cbn.
      destruct (Z.eqb_spec gres 16); [contradiction|].
      repeat split; auto; discriminate. }
  subst sres gres. set (buf := report_buffer data) in *.
  destruct (prints_invisible t Hp) as (Pc & Pf & Pk & Ps).
  assert (Hseen : forall current,
            current_after current
              (EvSend (firstn 16 EFW.position_request) 16
                 :: EvGet 17 16 buf :: t) =
            match settled_slot buf with Some s => s | None => current end).
  { intros current. cbn [current_after]. change (16 =? 16) with true.
    cbv iota. apply Pc. }
  assert (Hfw : forall current,
            forward_only current
              (EvSend (firstn 16 EFW.position_request) 16
                 :: EvGet 17 16 buf :: t)).
  { intros current. cbn. repeat split; auto. }
  unfold efw_verdict. unfold settled_slot in Hseen.
  destruct ((load buf 6 =? load buf 7) && (load buf 7 =? load buf 8)
            && (load buf 4 =? 1)).
  - do 4 eexists. split; [reflexivity|]. split; [exact Hfw|].
    split; [apply Hseen|].
    split; [intros _; apply report_buffer_byte|].
    split; [intros H; contradiction H; reflexivity|].
    split; [exact Ps|]. split; [exact Pk|].
    intros _. split; [apply report_buffer_byte | intros; apply Hseen].
  - destruct ((load buf 4 =? 6) || negb (load buf 5 =? 0));
      do 4 eexists; (split; [reflexivity|]); (split; [exact Hfw|]);
      (split; [apply Hseen|]); repeat split; auto; discriminate.
Qed.

Lemma efw_set_position_run devh slot w :
  1 <= slot <= 7 ->
  EFW.efw_set_position api devh slot w =
    (Ret (if fst (on_send api (EFW.position_command slot) w) =? 16
          then 0 else -1),
     snd (on_send api (EFW.position_command slot) w),
     [EvSend (EFW.position_command slot)
             (fst (on_send api (EFW.position_command slot) w))]).
Proof.
  intros Hslot. unfold EFW.efw_set_position.
  replace ((slot <? 1) || (7 <? slot)) with false
    by (symmetry; apply orb_false_intro; apply Z.ltb_ge; lia).
  unfold bind, hid_send_feature_report.
  change (Z.to_nat ZWO_REPORT_LEN) with 16%nat.
  change (firstn 16 (EFW.position_command slot))
    with (EFW.position_command slot).
  destruct (on_send api (EFW.position_command slot) w) as [res w1].
  cbn [fst snd]. change ZWO_REPORT_LEN with 16.
  destruct (res =? 16); reflexivity.
Qed.
End Queries.

(** ** Confinement: the events and jumps a computation can produce *)

Section Confinement.
Context (api : hidapi).
Variable P : event -> Prop.
Variable L : label -> Prop.

Lemma confined_ret {A} (a : A) : confined api P L (ret a).
Proof. intros w. constructor. Qed.

Lemma confined_goto {A} l : L l -> confined api P L (@goto api A l).
Proof. intros H w. split; [constructor | exact H]. Qed.

Lemma confined_out_of_fuel {A} : confined api P L (@out_of_fuel api A).
Proof. intros w. constructor. Qed.

Lemma confined_bind {A B} (m : M api A) (f : A -> M api B) :
  confined api P L m -> (forall a, confined api P L (f a)) ->
  confined api P L (bind m f).
Proof.
  intros Hm Hf w. unfold bind. specialize (Hm w).
  destruct (m w) as [[[a|l|c|] w1] t1]; try assumption.
  specialize (Hf a w1).
  destruct (f a w1) as [[[b|l|c|] w2] t2]; try assumption;
    repeat split; try apply Forall_app; tauto.
Qed.

Lemma confined_emit e : P e -> confined api P L (emit api e).
Proof. intros H w. repeat constructor. exact H. Qed.

Lemma confined_if {A} (c : bool) (m1 m2 : M api A) :
  confined api P L m1 -> confined api P L m2 ->
  confined api P L (if c then m1 else m2).
Proof. destruct c; auto. Qed.

Hypothesis Pprint : forall out fmt args, P (EvPrint out fmt args).
Hypothesis Psleep : forall usec, P (EvUsleep usec).
Hypothesis Pget : forall len res buf, P (EvGet len res buf).

Lemma confined_fprintf out fmt args :
  confined api P L (fprintf api out fmt args).
Proof. apply confined_emit, Pprint. Qed.

Lemma confined_usleep usec : confined api P L (usleep api usec).
Proof. apply confined_emit, Psleep. Qed.

Lemma confined_dump buf n :
  forall i, confined api P L (dump_bytes api buf i n).
Proof.
  induction n as [|n IH]; intros i; simpl.
  - apply confined_ret.
  - apply confined_bind; [apply confined_fprintf | intros _; apply IH].
Qed.

Lemma confined_send devh buf len :
  (forall res, P (EvSend (firstn (Z.to_nat len) buf) res)) ->
  confined api P L (hid_send_feature_report api devh buf len).
Proof.
  intros H w. unfold hid_send_feature_report.
  destruct (on_send api _ w) as [res w1]. repeat constructor. apply H.
Qed.

Lemma confined_get devh buf len :
  confined api P L (hid_get_feature_report api devh buf len).
Proof.
  intros w. unfold hid_get_feature_report.
  destruct (on_get api _ len w) as [[res data] w1].
  repeat constructor. apply Pget.
Qed.
End Confinement.

Create HintDb confine.
#[local] Hint Resolve confined_ret confined_out_of_fuel confined_fprintf
  confined_usleep confined_dump confined_get : confine.

(** Takes a [confined] goal apart along the structure of the code. *)
Ltac confine :=
  repeat first
    [ progress intros
    | solve [auto with confine]
    | match goal with
      | |- confined _ _ _ (bind _ _) => apply confined_bind
      | |- confined _ _ _ (if _ then _ else _) => apply confined_if
      | |- confined _ _ _ (goto _) => apply confined_goto; reflexivity
      | |- confined _ _ _ (let '(_, _) := ?p in _) => destruct p
      | |- confined _ _ _ (match ?p with Some _ => _ | None => _ end) =>
          destruct p
      end ].

Section Sessions.
Context (api : hidapi).
Variable P : event -> Prop.
Hypothesis Pprint : forall out fmt args, P (EvPrint out fmt args).
Hypothesis Psleep : forall usec, P (EvUsleep usec).
Hypothesis Pget : forall len res buf, P (EvGet len res buf).
Hypothesis Pmanufacturer : forall res, P (EvManufacturer res).
Hypothesis Pproduct : forall res, P (EvProduct res).

Lemma print_strings_confined apple devh :
  confined api P to_errexit (EFW.print_strings api apple devh).
Proof.
  unfold EFW.print_strings, printf.
  apply confined_if; [confine|].
  apply confined_bind.
  { intros w. unfold hid_get_manufacturer_string.
    destruct (on_manufacturer api w). repeat constructor.
    apply Pmanufacturer. }
  intros res. confine.
  intros w. unfold hid_get_product_string.
  destruct (on_product api w). repeat constructor. apply Pproduct.
Qed.

Lemma efw_get_info_confined devh :
  (forall res, P (EvSend (firstn 16 EFW.info_request) res)) ->
  confined api P to_errexit (EFW.efw_get_info api devh).
Proof.
  intros Hs. unfold EFW.efw_get_info. confine. apply confined_send, Hs.
Qed.

Lemma efw_get_position_confined devh slotret :
  (forall res, P (EvSend (firstn 16 EFW.position_request) res)) ->
  confined api P to_errexit (EFW.efw_get_position api devh slotret).
Proof.
  intros Hs. unfold EFW.efw_get_position, printf.
  destruct slotret; confine. apply confined_send, Hs.
Qed.

Lemma eaf_get_position_confined devh posret posmaxret :
  (forall res, P (EvSend (firstn 16 EAF.position_request) res)) ->
  confined api P to_errexit
    (EAF.eaf_get_position api devh posret posmaxret).
Proof.
  intros Hs. unfold EAF.eaf_get_position, printf.
  destruct posret; confine. apply confined_send, Hs.
Qed.

Lemma eaf_wait_settled_confined devh fuel :
  (forall res, P (EvSend (firstn 16 EAF.position_request) res)) ->
  forall pos posmax,
    confined api P to_errexit (EAF.wait_settled api fuel devh pos posmax).
Proof.
  intros Hs.
  induction fuel as [|fuel IH]; intros pos posmax; cbn [EAF.wait_settled].
  - confine.
  - apply confined_bind; [apply eaf_get_position_confined, Hs|].
    intros [[res posp] maxp]. confine; try apply IH.
Qed.

Hypothesis Psend : forall data res, P (EvSend data res).

Lemma efw_set_position_confined devh slot :
  confined api P to_errexit (EFW.efw_set_position api devh slot).
Proof.
  unfold EFW.efw_set_position. confine. apply confined_send, Psend.
Qed.

Lemma eaf_set_position_confined devh pos :
  confined api P to_errexit (EAF.eaf_set_position api devh pos).
Proof.
  unfold EAF.eaf_set_position. confine. apply confined_send, Psend.
Qed.

Lemma efw_wait_settled_confined devh fuel :
  forall slot,
    confined api P to_errexit (EFW.wait_settled api fuel devh slot).
Proof.
  induction fuel as [|fuel IH]; intros slot; cbn [EFW.wait_settled].
  - confine.
  - apply confined_bind;
      [apply efw_get_position_confined; intros; apply Psend|].
    intros [res slotp]. confine; try apply IH.
Qed.

Lemma poll_window_confined devh next n :
  forall i slot,
    confined api P to_errexit (EFW.poll_window api n i devh next slot).
Proof.
  induction n as [|n IH]; intros i slot; cbn [EFW.poll_window].
  - confine.
  - apply confined_bind;
      [apply efw_get_position_confined; intros; apply Psend|].
    intros [res slotp]. confine; try apply IH.
Qed.

Lemma move_loop_confined devh target fuel :
  forall slot,
    confined api P to_errexit (EFW.move_loop api fuel devh slot target).
Proof.
  induction fuel as [|fuel IH]; intros slot; cbn [EFW.move_loop].
  - confine.
  - unfold printf. apply confined_if; [confine|].
    apply confined_bind; [confine|]. intros _.
    apply confined_bind; [apply efw_set_position_confined|]. intros r.
    apply confined_if; [confine|].
    apply confined_bind; [apply poll_window_confined|]. intros [i slot'].
    apply confined_bind; [confine | intros _; apply IH].
Qed.

Lemma track_loop_confined devh target fuel :
  forall pos,
    confined api P to_errexit (EAF.track_loop api fuel devh pos target).
Proof.
  induction fuel as [|fuel IH]; intros pos; cbn [EAF.track_loop].
  - confine.
  - unfold printf. apply confined_if; [confine|].
    apply confined_bind;
      [apply eaf_get_position_confined; intros; apply Psend|].
    intros [[res posp] maxp]. confine; try apply IH.
Qed.

Lemma eaf_move_confined fuel devh pos posmax targetpos rel sign :
  confined api P to_errexit
    (EAF.move api fuel devh pos posmax targetpos rel sign).
Proof.
  unfold EAF.move.
  confine; auto using eaf_set_position_confined, track_loop_confined.
Qed.

Lemma efw_session_confined apple fuel devh targetslot :
  confined api P to_errexit (EFW.session api apple fuel devh targetslot).
Proof.
  unfold EFW.session, printf.
  apply confined_bind; [apply print_strings_confined|]. intros _.
  apply confined_bind; [apply efw_get_info_confined; intros; apply Psend|].
  intros r. apply confined_if; [confine|].
  apply confined_bind; [apply efw_wait_settled_confined|]. intros slot.
  apply confined_bind; [apply move_loop_confined|]. confine.
Qed.

Lemma eaf_session_confined fuel devh targetpos rel sign :
  confined api P to_errexit
    (EAF.session api fuel devh targetpos rel sign).
Proof.
  unfold EAF.session, printf.
  apply confined_bind;
    [apply eaf_wait_settled_confined; intros; apply Psend|].
  intros [pos posmax]. confine. apply eaf_move_confined.
Qed.
End Sessions.

(** ** [main] around its session *)

Section MainRuns.
Context (api : hidapi).

Lemma efw_read_args_run argv w :
  EFW.read_args api argv w =
  match efw_target argv with
  | Some targetslot => (Ret targetslot, w, [])
  | None =>
      (Goto errexitlast, w,
       [EvPrint stderr "invalid filter slot requested\n" []])
  end.
Proof.
  unfold EFW.read_args, efw_target.
  destruct (1 <? Z.of_nat (List.length argv)); [|reflexivity].
  cbv zeta.
  destruct ((strtol (nth 1 argv EmptyString) <? 1)
            || (7 <? strtol (nth 1 argv EmptyString))); reflexivity.
Qed.

Lemma efw_main_run apple argv fuel w :
  EFW.main api apple argv fuel w =
  match efw_target argv with
  | Some targetslot =>
      around_session api ZWO_USB_VENDOR_ID ZWO_USB_PRODUCT_ID_EFW
        (fun devh => EFW.session api apple fuel devh targetslot) w
  | None =>
      (Exit 2, w, [EvPrint stderr "invalid filter slot requested\n" []])
  end.
Proof.
  unfold EFW.main, at_label. unfold bind at 1.
  rewrite efw_read_args_run.
  destruct (efw_target argv) as [targetslot|]; [|reflexivity].
  unfold around_session.
  unfold bind at 1. unfold hid_init.
  destruct (on_init api w) as [res w1].
  destruct (negb (res =? 0)); [reflexivity|].
  unfold bind at 1. unfold hid_open.
  destruct (on_open api _ _ w1) as [[devh|] w2]; [|reflexivity].
  unfold bind at 1.
  destruct (EFW.session api apple fuel devh targetslot w2)
    as [[[[]|[]|code|] w3] t]; cbn; rewrite ?app_nil_r; reflexivity.
Qed.

Lemma eaf_read_args_run argv w :
  EAF.read_args api argv w =
  match eaf_target argv with
  | Some target => (Ret target, w, [])
  | None =>
      (Goto errexitlast, w,
       [EvPrint stderr "invalid position requested\n" []])
  end.
Proof.
  unfold EAF.read_args, eaf_target.
  destruct (EAF.parse_target argv) as [[targetpos targetrel] sign].
  destruct ((1 <? Z.of_nat (List.length argv))
            && ((targetpos <? 0) || (0xffff <? targetpos))); reflexivity.
Qed.

Lemma eaf_main_run argv fuel w :
  EAF.main api argv fuel w =
  match eaf_target argv with
  | Some (targetpos, targetrel, targetrelsign) =>
      around_session api ZWO_USB_VENDOR_ID ZWO_USB_PRODUCT_ID_EAF
        (fun devh =>
           EAF.session api fuel devh targetpos targetrel targetrelsign) w
  | None =>
      (Exit 2, w, [EvPrint stderr "invalid position requested\n" []])
  end.
Proof.
  unfold EAF.main, at_label. unfold bind at 1.
  rewrite eaf_read_args_run.
  destruct (eaf_target argv) as [[[targetpos targetrel] sign]|];
    [|reflexivity].
  unfold around_session.
  unfold bind at 1. unfold hid_init.
  destruct (on_init api w) as [res w1].
  destruct (negb (res =? 0)); [reflexivity|].
  unfold bind at 1. unfold hid_open.
  destruct (on_open api _ _ w1) as [[devh|] w2]; [|reflexivity].
  unfold bind at 1.
  destruct (EAF.session api fuel devh targetpos targetrel sign w2)
    as [[[[]|[]|code|] w3] t]; cbn; rewrite ?app_nil_r; reflexivity.
Qed.


Lemma eaf_target_accepts argv targetpos rel sign :
  1 < Z.of_nat (List.length argv) ->
  EAF.parse_target argv = (targetpos, rel, sign) ->
  0 <= targetpos <= 0xffff ->
  eaf_target argv = Some (targetpos, rel, sign).
Proof.
  intros Hargc Hparse Hrange. unfold eaf_target. rewrite Hparse.
  replace ((targetpos <? 0) || (0xffff <? targetpos)) with false
    by (symmetry; apply orb_false_intro; apply Z.ltb_ge; lia).
  rewrite andb_false_r. reflexivity.
Qed.

End MainRuns.

(** ** The move loop of the wheel *)

Section MoveLoop.
Context (api : hidapi).

(** The polls of a window command nothing, and the slot the loop holds
    afterwards is the one last seen settled. *)
Lemma poll_window_seen devh next n :
  forall i slot w,
    0 <= slot ->
    exists r w' t,
      EFW.poll_window api n i devh next slot w = (r, w', t)
      /\ (forall current, forward_only current t)
      /\ match r with
         | Ret (_, slot') => slot' = current_after slot t /\ 0 <= slot'
         | _ => True
         end.
Proof.
  induction n as [|n IH]; intros i slot w Hslot; cbn [EFW.poll_window].
  - do 3 eexists. split; [reflexivity|]. cbn. auto.
  - destruct (efw_get_position_seen api devh slot w)
      as (res & slot' & w1 & t1 & E1 & F1 & C1 & B1 & _ & _ & _ & _).
    unfold bind at 1. rewrite E1. cbn [deref].
    destruct (res =? -1).
    { do 3 eexists. split; [reflexivity|]. split; [|exact I].
      intros current. apply forward_only_app. split; [apply F1|].
      cbn. auto. }
    destruct ((res =? 0) && (slot' =? next)).
    { do 3 eexists. split; [reflexivity|]. rewrite app_nil_r.
      split; [exact F1|]. split; [symmetry; exact C1 | auto]. }
    unfold bind at 1. cbn [usleep emit].
    destruct (IH (i + 1) slot' w1 (B1 Hslot))
      as (r & w2 & t2 & E2 & F2 & C2).
    rewrite E2.
    do 3 eexists. split; [reflexivity|]. split.
    + intros current. apply forward_only_app. split; [apply F1|].
      cbn. split; [exact I | apply F2].
    + destruct r as [[i' slot'']| | |]; auto.
      rewrite current_after_app, C1. cbn [app current_after]. exact C2.
Qed.

(** The command of one round of the loop, as the readings see it. *)
Lemma request_forward slot res :
  0 <= slot ->
  forward_only slot
    [EvPrint stdout "request slot %d\n" [EFW.nextslot slot];
     EvSend (EFW.position_command (EFW.nextslot slot)) res]
  /\ commands
       [EvPrint stdout "request slot %d\n" [EFW.nextslot slot];
        EvSend (EFW.position_command (EFW.nextslot slot)) res]
     = [EFW.nextslot slot].
Proof.
  intros Hslot.
  assert (Hnext : 1 <= EFW.nextslot slot <= 7) by (apply nextslot_byte; lia).
  cbn [forward_only current_after commands].
  rewrite position_command_bytes. unfold commanded_slot. cbn.
  rewrite u8_small by (unfold is_byte; lia).
  repeat split. apply nextslot_forward, Hslot.
Qed.

Lemma move_loop_forward devh target fuel :
  forall slot w,
    0 <= slot ->
    forward_only slot
      (trace_of (EFW.move_loop api fuel devh slot target w)).
Proof.
  induction fuel as [|fuel IH]; intros slot w Hslot; cbn [EFW.move_loop].
  - destruct (slot =? target); exact I.
  - destruct (slot =? target); [exact I|].
    assert (Hnext : 1 <= EFW.nextslot slot <= 7)
      by (apply nextslot_byte; lia).
    unfold bind at 1. unfold printf at 1. cbn [fprintf emit].
    unfold bind at 1. rewrite efw_set_position_run by assumption.
    set (sent := on_send api (EFW.position_command (EFW.nextslot slot)) w).
    destruct (request_forward slot (fst sent) Hslot) as [Hcmd _].
    destruct (negb _).
    { exact Hcmd. }
    destruct (poll_window_seen devh (EFW.nextslot slot) 100 0 slot
                (snd sent) Hslot)
      as (r & w2 & t2 & E2 & F2 & C2).
    unfold bind at 1. rewrite E2.
    destruct r as [[i slot']| | |]; cbn [trace_of snd];
      try (change (forward_only slot
             ([EvPrint stdout "request slot %d\n" [EFW.nextslot slot];
               EvSend (EFW.position_command (EFW.nextslot slot))
                      (fst sent)] ++ t2));
           apply forward_only_app; split; [exact Hcmd | apply F2]).
    unfold bind at 1. unfold printf at 1. cbn [fprintf emit].
    specialize (IH slot' w2 (proj2 C2)).
    destruct (EFW.move_loop api fuel devh slot' target w2) as [[r3 w3] t3].
    cbn [trace_of snd] in IH.
    change (forward_only slot
              ([EvPrint stdout "request slot %d\n" [EFW.nextslot slot];
                EvSend (EFW.position_command (EFW.nextslot slot))
                       (fst sent)]
               ++ t2
               ++ [EvPrint stdout "current slot = %d\n" [slot']] ++ t3)).
    apply forward_only_app. split; [exact Hcmd|].
    apply forward_only_app. split; [apply F2|].
    cbn [current_after]. rewrite <- (proj1 C2).
    cbn. split; [exact I | exact IH].
Qed.

(** The first settle commands nothing and ends on a settled report: the
    slot it returns is the one a reading of the trace ends with, wherever
    the reading started. *)
Lemma wait_settled_seen devh fuel :
  forall slot w,
    exists r w' t,
      EFW.wait_settled api fuel devh slot w = (r, w', t)
      /\ (forall current, forward_only current t)
      /\ match r with
         | Ret slot' =>
             0 <= slot' /\ forall current, current_after current t = slot'
         | _ => True
         end.
Proof.
  induction fuel as [|fuel IH]; intros slot w; cbn [EFW.wait_settled].
  - do 3 eexists. split; [reflexivity|]. cbn. auto.
  - destruct (efw_get_position_seen api devh slot w)
      as (res & slot' & w1 & t1 & E1 & F1 & _ & _ & _ & _ & _ & S1).
    unfold bind at 1. rewrite E1. cbn [deref].
    destruct (res =? -1).
    { do 3 eexists. split; [reflexivity|]. split; [|exact I].
      intros current. apply forward_only_app. split; [apply F1|].
      cbn. auto. }
    destruct (Z.eqb_spec res 0) as [E0|E0].
    { do 3 eexists. split; [reflexivity|]. rewrite app_nil_r.
      split; [exact F1 | exact (S1 E0)]. }
    unfold bind at 1. cbn [usleep emit].
    destruct (IH slot' w1) as (r & w2 & t2 & E2 & F2 & C2).
    rewrite E2.
    do 3 eexists. split; [reflexivity|]. split.
    + intros current. apply forward_only_app. split; [apply F1|].
      cbn. split; [exact I | apply F2].
    + destruct r as [slot''| | |]; auto.
      split; [apply C2|]. intros current.
      rewrite current_after_app. cbn [app current_after]. apply C2.
Qed.

(** The trace of [bind]: that of the first part, then that of the rest. *)
Lemma bind_trace {A B} (m : M api A) (f : A -> M api B) w :
  trace_of (bind m f w) =
  trace_of (m w)
    ++ match m w with
       | (Ret a, w1, _) => trace_of (f a w1)
       | _ => []
       end.
Proof.
  unfold bind, trace_of.
  destruct (m w) as [[[a|l|c|] w1] t1]; cbn [snd];
    rewrite ?app_nil_r; try reflexivity.
  destruct (f a w1) as [[r w2] t2]. reflexivity.
Qed.

(** A whole session of the wheel program is forward-only, wherever the
    reading starts. *)
Lemma session_forward apple fuel devh targetslot w current :
  forward_only current
    (trace_of (EFW.session api apple fuel devh targetslot w)).
Proof.
  assert (Hfree : forall (m : M api unit) w0,
            confined api no_wheel_command to_errexit m ->
            forall c, forward_only c (trace_of (m w0))).
  { intros m w0 Hm c. specialize (Hm w0).
    destruct (m w0) as [[[[]|l|code|] w1] t]; cbn [trace_of snd];
      try contradiction; apply no_wheel_commands; tauto. }
  unfold EFW.session.
  rewrite bind_trace. apply forward_only_app. split.
  { apply Hfree, print_strings_confined; intros; exact I. }
  destruct (EFW.print_strings api apple devh w) as [[[[]|l|code|] w1] t1];
    try exact I.
  rewrite bind_trace. apply forward_only_app. split.
  { pose proof (efw_get_info_confined api no_wheel_command
                  (fun _ _ _ => I) (fun _ _ _ => I) devh
                  (fun _ => eq_refl) w1) as H.
    destruct (EFW.efw_get_info api devh w1) as [[[r|l|code|] w2] t2];
      cbn [trace_of snd]; try contradiction;
      apply no_wheel_commands; tauto. }
  destruct (EFW.efw_get_info api devh w1) as [[[r|l|code|] w2] t2];
    try exact I.
  destruct (negb (r =? 0)); [exact I|].
  rewrite bind_trace.
  destruct (wait_settled_seen devh fuel 0 w2) as (r3 & w3 & t3 & E3 & F3 & C3).
  rewrite E3. cbn [trace_of snd].
  apply forward_only_app. split; [apply F3|].
  destruct r3 as [slot| | |]; try exact I.
  destruct C3 as [Hslot Hcur]. rewrite Hcur.
  rewrite bind_trace. apply forward_only_app. split.
  { apply move_loop_forward, Hslot. }
  destruct (EFW.move_loop api fuel devh slot _ w3) as [[[slot'|l|code|] w4] t4];
    cbn; auto.
Qed.

(** Every run of the wheel program is forward-only. *)
Lemma main_forward apple argv fuel w current :
  forward_only current (trace_of (EFW.main api apple argv fuel w)).
Proof.
  rewrite efw_main_run.
  destruct (efw_target argv) as [targetslot|]; [|cbn; auto].
  unfold around_session.
  destruct (on_init api w) as [res w1].
  destruct (negb (res =? 0)); [cbn; auto|].
  destruct (on_open api _ _ w1) as [[devh|] w2]; [|cbn; auto 6].
  pose proof (session_forward apple fuel devh targetslot w2) as H.
  destruct (EFW.session api apple fuel devh targetslot w2)
    as [[[[]|[]|code|] w3] t];
    cbn [trace_of snd] in *; cbn [forward_only current_after];
    (split; [exact I|]); (split; [exact I|]);
    try apply H;
    (apply forward_only_app; split; [apply H | cbn; auto]).
Qed.

(** A window of polls that neither fail nor settle at [next] runs to its
    end and returns. *)
Lemma poll_window_unsettled devh next n :
  forall i slot w slot' w',
    unsettled_polls api devh n next slot w = Some (slot', w') ->
    exists t,
      EFW.poll_window api n i devh next slot w
        = (Ret (i + Z.of_nat n, slot'), w', t)
      /\ sleeps t = n
      /\ commands t = [].
Proof.
  induction n as [|n IH]; intros i slot w slot' w' H.
  - injection H as <- <-. exists []. split; [|split; reflexivity].
    cbn [EFW.poll_window]. unfold ret. repeat f_equal. cbn. lia.
  - cbn [unsettled_polls] in H. cbn [EFW.poll_window].
    destruct (efw_get_position_seen api devh slot w)
      as (res & s & w1 & t1 & E1 & _ & _ & _ & Hkeep & Hs & Hc & _).
    rewrite E1 in H.
    unfold bind at 1. rewrite E1. cbn [deref].
    unfold EFW.status_of in H. cbn [fst snd deref] in H.
    assert (Hgo : exists slot1,
               unsettled_polls api devh n next slot1 w1 = Some (slot', w')
               /\ (res =? -1) = false
               /\ ((res =? 0) && (s =? next)) = false
               /\ slot1 = s).
    { destruct (res =? 0) eqn:E0.
      - destruct (s =? next) eqn:En; [discriminate|].
        exists s. apply Z.eqb_eq in E0. subst res. auto.
      - destruct (res =? -1); [discriminate|].
        exists slot. repeat split; auto.
        symmetry. apply Hkeep. apply Z.eqb_neq, E0. }
    destruct Hgo as (slot1 & Hrest & -> & -> & ->).
    destruct (IH (i + 1) s w1 slot' w' Hrest) as (t2 & E2 & S2 & C2).
    unfold bind at 1. cbn [usleep emit]. rewrite E2.
    eexists. split.
    + replace (i + Z.of_nat (S n)) with (i + 1 + Z.of_nat n) by lia.
      reflexivity.
    + rewrite sleeps_app, commands_app, Hs, Hc. cbn. rewrite S2, C2.
      split; reflexivity.
Qed.
End MoveLoop.

(** ** [strtol] on well-formed arguments *)





(** ** The move of the focuser *)

Section Focuser.
Context (api : hidapi).

Lemma eaf_move_rejects fuel devh pos posmax targetpos rel sign w :
  targetpos <> -1 ->
  let target := EAF.resolve_target pos targetpos rel sign in
  target < 0 \/ posmax < target ->
  EAF.move api fuel devh pos posmax targetpos rel sign w =
    (Goto errexit, w,
     [EvPrint stderr "requesting target %ld\n" [target];
      EvPrint stderr "invalid target %ld\n" [target]]).
Proof.
  intros Hne target Hout. unfold EAF.move. fold target.
  replace (negb (targetpos =? -1)) with true
    by (symmetry; apply negb_true_iff, Z.eqb_neq, Hne).
  replace ((target <? 0) || (posmax <? target)) with true; [reflexivity|].
  symmetry. apply orb_true_iff.
  destruct Hout; [left | right]; apply Z.ltb_lt; assumption.
Qed.
End Focuser.

(** ** Fuel *)

Section Fuel.
Context (api : hidapi).

Lemma extends_refl {A} (m : M api A) : extends api m m.
Proof. intros w _. reflexivity. Qed.

Lemma extends_bind {A B} (m m' : M api A) (f f' : A -> M api B) :
  extends api m m' -> (forall a, extends api (f a) (f' a)) ->
  extends api (bind m f) (bind m' f').
Proof.
  intros Hm Hf w. unfold bind. specialize (Hm w).
  destruct (m w) as [[[a|l|c|] w1] t1]; intros Hfin;
    try (rewrite Hm by exact I; reflexivity); try contradiction.
  rewrite Hm by exact I. specialize (Hf a w1).
  destruct (f a w1) as [[[b|l|c|] w2] t2];
    try (rewrite Hf by exact I; reflexivity); contradiction.
Qed.

Lemma extends_at_label {A} (m m' : M api A) h :
  extends api m m' -> extends api (at_label m h) (at_label m' h).
Proof.
  intros Hm w. unfold at_label. specialize (Hm w).
  destruct (m w) as [[[a|l|c|] w1] t1]; intros Hfin;
    try (rewrite Hm by exact I; reflexivity); contradiction.
Qed.

Lemma extends_if {A} (c : bool) (m1 m1' m2 m2' : M api A) :
  extends api m1 m1' -> extends api m2 m2' ->
  extends api (if c then m1 else m2) (if c then m1' else m2').
Proof. destruct c; auto. Qed.

Lemma extends_out_of_fuel {A} (m' : M api A) : extends api out_of_fuel m'.
Proof. intros w H. contradiction. Qed.

Lemma extends_trans {A} (m1 m2 m3 : M api A) :
  extends api m1 m2 -> extends api m2 m3 -> extends api m1 m3.
Proof.
  intros H12 H23 w Hfin. rewrite H23; rewrite (H12 w Hfin); auto.
Qed.

Lemma efw_wait_settled_extends devh fuel :
  forall slot,
    extends api (EFW.wait_settled api fuel devh slot)
                (EFW.wait_settled api (S fuel) devh slot).
Proof.
  induction fuel as [|fuel IH]; intros slot.
  - apply extends_out_of_fuel.
  - cbn [EFW.wait_settled].
    apply extends_bind; [apply extends_refl|]. intros [res slotp].
    cbv zeta. apply extends_if; [apply extends_refl|].
    apply extends_if; [apply extends_refl|].
    apply extends_bind; [apply extends_refl | intros _; apply IH].
Qed.

Lemma move_loop_extends devh target fuel :
  forall slot,
    extends api (EFW.move_loop api fuel devh slot target)
                (EFW.move_loop api (S fuel) devh slot target).
Proof.
  induction fuel as [|fuel IH]; intros slot.
  - cbn [EFW.move_loop].
    apply extends_if; [apply extends_refl | apply extends_out_of_fuel].
  - cbn [EFW.move_loop].
    apply extends_if; [apply extends_refl|]. cbv zeta.
    apply extends_bind; [apply extends_refl|]. intros _.
    apply extends_bind; [apply extends_refl|]. intros r.
    apply extends_if; [apply extends_refl|].
    apply extends_bind; [apply extends_refl|]. intros [i slot'].
    apply extends_bind; [apply extends_refl | intros _; apply IH].
Qed.

Lemma efw_main_extends apple argv fuel :
  extends api (EFW.main api apple argv fuel)
              (EFW.main api apple argv (S fuel)).
Proof.
  unfold EFW.main.
  apply extends_at_label.
  apply extends_bind; [apply extends_refl|]. intros targetslot.
  apply extends_bind; [apply extends_refl|]. intros res.
  apply extends_if; [apply extends_refl|].
  apply extends_bind; [apply extends_refl|]. intros [devh|];
    [|apply extends_refl].
  apply extends_at_label.
  apply extends_bind; [|intros; apply extends_refl].
  unfold EFW.session.
  apply extends_bind; [apply extends_refl|]. intros _.
  apply extends_bind; [apply extends_refl|]. intros r.
  apply extends_if; [apply extends_refl|].
  apply extends_bind; [apply efw_wait_settled_extends|]. intros slot.
  cbv zeta.
  apply extends_bind; [apply move_loop_extends | intros; apply extends_refl].
Qed.

Lemma eaf_wait_settled_extends devh fuel :
  forall pos posmax,
    extends api (EAF.wait_settled api fuel devh pos posmax)
                (EAF.wait_settled api (S fuel) devh pos posmax).
Proof.
  induction fuel as [|fuel IH]; intros pos posmax.
  - apply extends_out_of_fuel.
  - cbn [EAF.wait_settled].
    apply extends_bind; [apply extends_refl|]. intros [[res posp] maxp].
    cbv zeta. apply extends_if; [apply extends_refl|].
    apply extends_if; [apply extends_refl|].
    apply extends_bind; [apply extends_refl | intros _; apply IH].
Qed.

Lemma track_loop_extends devh target fuel :
  forall pos,
    extends api (EAF.track_loop api fuel devh pos target)
                (EAF.track_loop api (S fuel) devh pos target).
Proof.
  induction fuel as [|fuel IH]; intros pos.
  - cbn [EAF.track_loop].
    apply extends_if; [apply extends_refl | apply extends_out_of_fuel].
  - cbn [EAF.track_loop].
    apply extends_if; [apply extends_refl|].
    apply extends_bind; [apply extends_refl|]. intros [[res posp] maxp].
    cbv zeta. apply extends_if; [apply extends_refl|].
    apply extends_bind; [apply extends_refl|]. intros _.
    apply extends_if; [apply extends_refl|].
    apply extends_bind; [apply extends_refl | intros _; apply IH].
Qed.

Lemma eaf_main_extends argv fuel :
  extends api (EAF.main api argv fuel) (EAF.main api argv (S fuel)).
Proof.
  unfold EAF.main.
  apply extends_at_label.
  apply extends_bind; [apply extends_refl|].
  intros [[targetpos targetrel] targetrelsign].
  apply extends_bind; [apply extends_refl|]. intros res.
  apply extends_if; [apply extends_refl|].
  apply extends_bind; [apply extends_refl|]. intros [devh|];
    [|apply extends_refl].
  apply extends_at_label.
  apply extends_bind; [|intros; apply extends_refl].
  unfold EAF.session.
  apply extends_bind; [apply eaf_wait_settled_extends|]. intros [pos posmax].
  apply extends_bind; [apply extends_refl|]. intros _.
  unfold EAF.move.
  apply extends_if; [|apply extends_refl]. cbv zeta.
  apply extends_bind; [apply extends_refl|]. intros _.
  apply extends_if; [apply extends_refl|].
  apply extends_bind; [apply extends_refl|]. intros r.
  apply extends_if; [apply extends_refl|].
  apply extends_bind; [apply track_loop_extends | intros; apply extends_refl].
Qed.

(** A run that finished is the same run with any more fuel: the fuel only
    cuts runs, it never changes one. *)
Lemma main_fuel_irrelevant apple argv fuel fuel' w :
  (fuel <= fuel')%nat ->
  (finished (EFW.main api apple argv fuel w) ->
   EFW.main api apple argv fuel' w = EFW.main api apple argv fuel w)
  /\ (finished (EAF.main api argv fuel w) ->
      EAF.main api argv fuel' w = EAF.main api argv fuel w).
Proof.
  induction 1 as [|fuel' Hle [IHw IHf]]; [split; reflexivity|].
  split; intros Hfin.
  - rewrite <- (IHw Hfin). apply efw_main_extends.
    rewrite (IHw Hfin). exact Hfin.
  - rewrite <- (IHf Hfin). apply eaf_main_extends.
    rewrite (IHf Hfin). exact Hfin.
Qed.
End Fuel.

(** * The claims *)

(** C1, as the code has it. For every position report of the wheel that was
    read successfully (the request was accepted and 16 bytes came back),
    [efw_get_position] answers: Settled, with the slot of the first
    consistency byte, exactly when the three consistency bytes (offsets 6, 7,
    8) are equal and the status byte (offset 4) is 1; Fatal exactly when the
    report is not settled and the status byte is 6 or the error-code byte
    (offset 5) is nonzero; Moving in every other case. The settled test comes
    first: an error code on a settled report does not make it fatal. *)
Theorem efw_get_position_status :
  forall (api : hidapi) (devh : hid_device) (old : Z)
         (w w1 w2 : world api) (data : list Z),
    on_send api (firstn 16 EFW.position_request) w = (16, w1) ->
    on_get api 1 17 w1 = ((16, data), w2) ->
    let buf := report_buffer data in
    let settled :=
      load buf 6 = load buf 7 /\ load buf 7 = load buf 8 /\ load buf 4 = 1 in
    exists r,
      value_of (EFW.efw_get_position api devh (Some old) w) = Some r
      /\ (forall slot,
            EFW.status_of r = Settled slot <-> settled /\ slot = load buf 6)
      /\ (EFW.status_of r = Fatal <->
            ~ settled /\ (load buf 4 = 6 \/ load buf 5 <> 0))
      /\ (EFW.status_of r = Moving <->
            ~ settled /\ load buf 4 <> 6 /\ load buf 5 = 0).
Proof.
  intros api devh old w w1 w2 data Hs Hg buf settled.
  pose proof (efw_get_position_cases api devh old w) as H.
  rewrite Hs, Hg in H. cbv zeta in H. destruct H as [t [_ E]].
  change (negb (16 =? 16)) with false in E. cbv iota in E.
  fold buf in E. rewrite E. cbn [value_of].
  eexists. split; [reflexivity|].
  unfold efw_verdict, EFW.status_of, settled.
  destruct (Z.eqb_spec (load buf 6) (load buf 7));
    destruct (Z.eqb_spec (load buf 7) (load buf 8));
    destruct (Z.eqb_spec (load buf 4) 1);
    destruct (Z.eqb_spec (load buf 4) 6);
    destruct (Z.eqb_spec (load buf 5) 0);
    cbn [andb orb negb fst snd Z.eqb deref];
    repeat split; intros;
    repeat match goal with
           | H : _ /\ _ |- _ => destruct H
           | H : _ \/ _ |- _ => destruct H
           | H : Settled _ = Settled _ |- _ => injection H as H
           | H : ~ (_ /\ _) |- _ => try (exfalso; apply H; repeat split; lia)
           end;
    try discriminate; try congruence; try lia;
    try (intros [? [? ?]]; lia); auto.
Qed.

(** A wheel that reports status 1 and slot 3 three times is settled at 3. *)
Lemma efw_get_position_status_witness :
  exists r,
    value_of (EFW.efw_get_position
                (Sim.fixed_report (Sim.wheel_report 1 3 3 3)) tt (Some 0) tt)
      = Some r
    /\ EFW.status_of r = Settled 3.
Proof.
  destruct (efw_get_position_status
              (Sim.fixed_report (Sim.wheel_report 1 3 3 3)) tt 0 tt tt tt
              (Sim.wheel_report 1 3 3 3) eq_refl eq_refl)
    as (r & E & HS & _).
  exists r. split; [exact E|].
  apply HS. vm_compute. repeat split; reflexivity.
Defined.

(** C1 as stated fails where a report is settled and carries an error code:
    the error-code byte is nonzero and the answer is Settled, not Fatal. *)
Lemma efw_error_code_on_settled_report :
  load Examples.settled_with_error_code 5 <> 0
  /\ option_map EFW.status_of
       (value_of (EFW.efw_get_position
                    (Sim.fixed_report Examples.settled_with_error_code)
                    tt (Some 0) tt))
     = Some (Settled 3)
  /\ option_map EFW.status_of
       (value_of (EFW.efw_get_position
                    (Sim.fixed_report Examples.settled_with_error_code)
                    tt (Some 0) tt))
     <> Some Fatal.
Proof.
  split; [vm_compute; discriminate|].
  split; [vm_compute; reflexivity | vm_compute; discriminate].
Qed.

(** C2, as the code has it. In the move loop of the wheel, when a forward
    step is accepted by the device and none of the 100 polls of its window
    (500 ms apart) is fatal or shows the wheel settled at the commanded next
    slot, nothing is surfaced: the window ends without an error, and the run
    goes on exactly as the move loop does from the slot last seen settled.
    If that slot is the target the loop ends normally; otherwise it commands
    a single step again. The timeout is not an error of its own and does not
    lead to exit code 2. *)
Theorem wheel_step_timeout_goes_round_again :
  forall (api : hidapi) (devh : hid_device) (fuel : nat)
         (slot target : Z) (w : world api) (slot' : Z) (w2 : world api),
    0 <= slot ->
    slot <> target ->
    fst (on_send api (EFW.position_command (EFW.nextslot slot)) w) = 16 ->
    unsettled_polls api devh 100 (EFW.nextslot slot) slot
      (snd (on_send api (EFW.position_command (EFW.nextslot slot)) w))
      = Some (slot', w2) ->
    exists t,
      EFW.move_loop api (S fuel) devh slot target w =
        (let '(r, w3, t3) := EFW.move_loop api fuel devh slot' target w2 in
         (r, w3, t ++ t3))
      /\ sleeps t = 100%nat
      /\ commands t = [EFW.nextslot slot]
      /\ (slot' = target ->
          EFW.move_loop api (S fuel) devh slot target w = (Ret target, w2, t)).
Proof.
  intros api devh fuel slot target w slot' w2 Hslot Hne Hsent Hpolls.
  set (next := EFW.nextslot slot) in *.
  assert (Hnext : 1 <= next <= 7) by (apply nextslot_byte; lia).
  destruct (poll_window_unsettled api devh next 100 0 slot _ slot' w2 Hpolls)
    as (t2 & E2 & S2 & C2).
  destruct (request_forward slot 16 Hslot) as [_ Hcmd]. fold next in Hcmd.
  exists ([EvPrint stdout "request slot %d\n" [next];
           EvSend (EFW.position_command next) 16]
          ++ t2 ++ [EvPrint stdout "current slot = %d\n" [slot']]).
  assert (E : EFW.move_loop api (S fuel) devh slot target w =
              (let '(r, w3, t3) :=
                 EFW.move_loop api fuel devh slot' target w2 in
               (r, w3,
                ([EvPrint stdout "request slot %d\n" [next];
                  EvSend (EFW.position_command next) 16]
                 ++ t2 ++ [EvPrint stdout "current slot = %d\n" [slot']])
                ++ t3))).
  { cbn [EFW.move_loop]. fold next.
    replace (slot =? target) with false by (symmetry; apply Z.eqb_neq, Hne).
    unfold bind at 1. unfold printf at 1. cbn [fprintf emit].
    unfold bind at 1. rewrite efw_set_position_run by assumption.
    rewrite Hsent.
    change (negb ((if 16 =? 16 then 0 else -1) =? 0)) with false. cbv iota.
    unfold bind at 1. rewrite E2.
    unfold bind at 1. unfold printf at 1. cbn [fprintf emit].
    destruct (EFW.move_loop api fuel devh slot' target w2) as [[r3 w3] t3].
    rewrite <- !app_assoc. reflexivity. }
  split; [exact E|]. split.
  { rewrite !sleeps_app, S2. reflexivity. }
  split.
  { rewrite commands_app, Hcmd, commands_app, C2. reflexivity. }
  intros ->. rewrite E.
  replace (EFW.move_loop api fuel devh target target w2)
    with (@Ret Z target, w2, @nil event).
  - rewrite app_nil_r. reflexivity.
  - destruct fuel; cbn [EFW.move_loop]; rewrite Z.eqb_refl; reflexivity.
Qed.

(** A wheel that takes 150 polls for the step from 3 to 4: the first window
    runs out and the loop goes round again. *)
Lemma wheel_step_timeout_goes_round_again_witness :
  exists t,
    EFW.move_loop (Sim.wheel_api 150) 6 tt 3 4 (Sim.wheel_at 3) =
      (let '(r, w3, t3) :=
         EFW.move_loop (Sim.wheel_api 150) 5 tt 3 4
           {| Sim.w_slot := 3; Sim.w_target := 4; Sim.w_busy := 50;
              Sim.w_request := firstn 16 EFW.position_request |} in
       (r, w3, t ++ t3))
    /\ sleeps t = 100%nat.
Proof.
  destruct (wheel_step_timeout_goes_round_again
              (Sim.wheel_api 150) tt 5 3 4 (Sim.wheel_at 3) 3
              {| Sim.w_slot := 3; Sim.w_target := 4; Sim.w_busy := 50;
                 Sim.w_request := firstn 16 EFW.position_request |})
    as (t & E & S & _).
  - lia.
  - discriminate.
  - reflexivity.
  - vm_compute. reflexivity.
  - exists t. split; [exact E | exact S].
Defined.

(** C2 as stated fails on a slow wheel: the step from 3 to 4 is commanded,
    100 reports in a row show nothing settled, the step is commanded again,
    and the run ends with exit code 0 and nothing on [stderr]. *)
Lemma wheel_step_timeout_exits_0 :
  steps (trace_of Examples.slow_wheel_3_to_4) =
    [Report None; Report (Some 3); Command 4]
    ++ repeat (Report None) 100
    ++ [Command 4]
    ++ repeat (Report None) 50
    ++ [Report (Some 4)]
  /\ exit_status Examples.slow_wheel_3_to_4 = Some 0
  /\ exit_status Examples.slow_wheel_3_to_4 <> Some 2
  /\ complaints (trace_of Examples.slow_wheel_3_to_4) = [].
Proof.
  split; [vm_compute; reflexivity|].
  split; [vm_compute; reflexivity|].
  split; [vm_compute; discriminate | vm_compute; reflexivity].
Qed.

(** C3. For every settled current slot in [1,7] and every target slot in
    [1,7], each set-position command the move loop of the wheel issues is for
    the slot [((current - 1 + 1) mod 7) + 1], [current] being the slot the
    wheel was last seen settled at: one forward step at a time. The same
    holds of every whole run of the program, on every device. In particular,
    from slot 3 with target slot 6 the commands are for 4, then 5, then 6,
    never for 6 directly. *)
Theorem wheel_steps_forward_only :
  forall (api : hidapi) (devh : hid_device) (fuel : nat)
         (slot target : Z) (w : world api),
    1 <= slot <= 7 ->
    1 <= target <= 7 ->
    forward_only slot (trace_of (EFW.move_loop api fuel devh slot target w))
    /\ (forall (apple : bool) (argv : list string) (current : Z),
          forward_only current
            (trace_of (EFW.main api apple argv fuel w)))
    /\ exit_status Examples.wheel_3_to_6 = Some 0
    /\ commands (trace_of Examples.wheel_3_to_6) = [4; 5; 6].
Proof.
  intros api devh fuel slot target w Hslot Htarget. split.
  - apply move_loop_forward. lia.
  - split; [intros; apply main_forward|].
    vm_compute. split; reflexivity.
Qed.

Lemma wheel_steps_forward_only_witness :
  forward_only 3
    (trace_of (EFW.move_loop (Sim.wheel_api 2) 50 tt 3 6 (Sim.wheel_at 3))).
Proof.
  refine (proj1 (wheel_steps_forward_only
                   (Sim.wheel_api 2) tt 50 3 6 (Sim.wheel_at 3) _ _)); lia.
Defined.

(** C4. For every [pos] in [0, 65535], the frame [eaf_set_position] builds
    and sends has 16 bytes: report id 0x03, header 0x7E 0x5A, command 0x03,
    subcommand 0x01, the big-endian bytes of [pos] at offsets 8 and 9, the
    tail 0x02 0xEA 0x60 at offsets 13 to 15, and zero everywhere else. *)
Theorem eaf_set_position_frame :
  forall pos : Z,
    0 <= pos <= 65535 ->
    EAF.position_command pos =
      [0x03; 0x7e; 0x5a; 0x03; 0x01; 0x00; 0x00; 0x00;
       pos / 256; pos mod 256; 0x00; 0x00; 0x00; 0x02; 0xea; 0x60]
    /\ 256 * (pos / 256) + pos mod 256 = pos
    /\ is_byte (pos / 256) /\ is_byte (pos mod 256)
    /\ forall (api : hidapi) (devh : hid_device) (w : world api),
         trace_of (EAF.eaf_set_position api devh pos w) =
           [EvSend (EAF.position_command pos)
                   (fst (on_send api (EAF.position_command pos) w))].
Proof.
  intros pos Hpos.
  assert (Hframe : EAF.position_command pos =
      [0x03; 0x7e; 0x5a; 0x03; 0x01; 0x00; 0x00; 0x00;
       pos / 256; pos mod 256; 0x00; 0x00; 0x00; 0x02; 0xea; 0x60]).
  { cbv [EAF.position_command store_seq fold_left store_next store memset
         repeat fst snd].
    rewrite high_byte, low_byte by assumption. reflexivity. }
  split; [exact Hframe|].
  split; [pose proof (Z.div_mod pos 256); lia|].
  split; [unfold is_byte; split;
            [apply Z.div_pos; lia | apply Z.div_lt_upper_bound; lia]|].
  split; [apply Z.mod_pos_bound; lia|].
  intros api devh w.
  unfold EAF.eaf_set_position, bind, hid_send_feature_report, trace_of.
  rewrite Hframe.
  change (Z.to_nat ZWO_REPORT_LEN) with 16%nat. cbn [firstn].
  destruct (on_send api _ w) as [res w1]. cbn [fst].
  destruct (negb (res =? ZWO_REPORT_LEN)); reflexivity.
Qed.

(** The command of the capture in the source: position 26000 is 0x65 0x90. *)
Lemma eaf_set_position_frame_witness :
  EAF.position_command 26000 =
    [0x03; 0x7e; 0x5a; 0x03; 0x01; 0x00; 0x00; 0x00;
     26000 / 256; 26000 mod 256; 0x00; 0x00; 0x00; 0x02; 0xea; 0x60].
Proof.
  apply (eaf_set_position_frame 26000). lia.
Defined.

(** C5. [eaf_get_position] answers Settled, with the position read
    big-endian from offsets 8-9 and the maximum from offsets 14-15, exactly
    when the status byte (offset 4) of the report is 0; Moving for every
    nonzero status byte; and Fatal when the send or the read transfers a
    wrong number of bytes. *)
Theorem eaf_get_position_status :
  forall (api : hidapi) (devh : hid_device) (old oldmax : Z)
         (w w1 w2 : world api) (sres gres : Z) (data : list Z),
    on_send api (firstn 16 EAF.position_request) w = (sres, w1) ->
    on_get api 1 17 w1 = ((gres, data), w2) ->
    let buf := report_buffer data in
    let position := 256 * load buf 8 + load buf 9 in
    let maximum := 256 * load buf 14 + load buf 15 in
    exists r,
      value_of (EAF.eaf_get_position api devh (Some old) (Some oldmax) w)
        = Some r
      /\ (sres <> 16 -> EAF.status_of r = Fatal)
      /\ (sres = 16 -> gres <> 16 -> EAF.status_of r = Fatal)
      /\ (sres = 16 -> gres = 16 ->
          (EAF.status_of r = Settled (position, maximum) <-> load buf 4 = 0)
          /\ (EAF.status_of r = Moving <-> load buf 4 <> 0)
          /\ (forall v, EAF.status_of r = Settled v ->
                        v = (position, maximum))).
Proof.
  intros api devh old oldmax w w1 w2 sres gres data Hs Hg buf position maximum.
  pose proof (eaf_get_position_cases api devh old (Some oldmax) w) as H.
  rewrite Hs, Hg in H. cbv zeta in H. destruct H as [t [_ E]].
  fold buf in E. rewrite E. clear E.
  destruct (Z.eqb_spec sres 16) as [Es|Es]; cbn [negb].
  - destruct (Z.eqb_spec gres 16) as [Eg|Eg]; cbn [negb value_of].
    + eexists. split; [reflexivity|].
      split; [intros; contradiction|]. split; [intros; contradiction|].
      intros _ _. unfold eaf_verdict, EAF.status_of.
      unfold buf. rewrite !report_be16. fold buf. fold position maximum.
      destruct (Z.eqb_spec (load buf 4) 0) as [E4|E4];
        cbn [negb Z.eqb deref];
        repeat split; intros; try congruence; try discriminate.
    + eexists. split; [reflexivity|].
      split; [intros; contradiction|]. split; [reflexivity|].
      intros; contradiction.
  - cbn [value_of]. eexists. split; [reflexivity|].
    split; [reflexivity|]. split; intros; contradiction.
Qed.

(** A focuser that reports status 0 at 25000 of 60000 is settled there;
    when the send (transfer 0) or the read (transfer 1) fails the answer is
    Fatal. *)
Lemma eaf_get_position_status_witness :
  (exists r,
     value_of (EAF.eaf_get_position
                 (Sim.fixed_report (Sim.focuser_report 0 25000 60000))
                 tt (Some 0) (Some 0) tt) = Some r
     /\ EAF.status_of r = Settled (25000, 60000))
  /\ (exists r,
        value_of (EAF.eaf_get_position
                    (Sim.failing_at 0 (Sim.focuser_report 0 25000 60000))
                    tt (Some 0) (Some 0) O) = Some r
        /\ EAF.status_of r = Fatal)
  /\ (exists r,
        value_of (EAF.eaf_get_position
                    (Sim.failing_at 1 (Sim.focuser_report 0 25000 60000))
                    tt (Some 0) (Some 0) O) = Some r
        /\ EAF.status_of r = Fatal).
Proof.
  split; [|split].
  - destruct (eaf_get_position_status
                (Sim.fixed_report (Sim.focuser_report 0 25000 60000))
                tt 0 0 tt tt tt 16 16 (Sim.focuser_report 0 25000 60000)
                eq_refl eq_refl)
      as (r & E & _ & _ & H).
    exists r. split; [exact E|].
    destruct (H eq_refl eq_refl) as (HS & _). apply HS. reflexivity.
  - destruct (eaf_get_position_status
                (Sim.failing_at 0 (Sim.focuser_report 0 25000 60000))
                tt 0 0 O 1%nat 2%nat (-1) 16
                (Sim.focuser_report 0 25000 60000) eq_refl eq_refl)
      as (r & E & H & _).
    exists r. split; [exact E | apply H; discriminate].
  - destruct (eaf_get_position_status
                (Sim.failing_at 1 (Sim.focuser_report 0 25000 60000))
                tt 0 0 O 1%nat 2%nat 16 (-1)
                (Sim.focuser_report 0 25000 60000) eq_refl eq_refl)
      as (r & E & _ & H & _).
    exists r. split; [exact E | apply H; [reflexivity | discriminate]].
Defined.

(** C6. The focuser resolves a relative target by adding the signed delta
    to the last settled position: from 100, argument "-30" gives 70 and
    "+30" gives 130, and those are the positions commanded. Whenever the
    resolved target is negative or exceeds the maximum the device reported,
    the run exits with code 2 and no set-position command has been sent. *)
Theorem focuser_target_resolved_and_checked :
  (focuser_commands (trace_of (Examples.focuser_run "-30")) = [70]
   /\ focuser_commands (trace_of (Examples.focuser_run "+30")) = [130])
  /\ (forall (pos delta : Z) (rest : string),
        EAF.resolve_target pos delta true (Some (String "-" rest))
          = pos - delta
        /\ EAF.resolve_target pos delta true (Some (String "+" rest))
          = pos + delta)
  /\ forall (api : hidapi) (argv : list string) (fuel : nat)
            (w w1 w2 w3 : world api) (devh : hid_device)
            (targetpos pos posmax : Z) (targetrel : bool)
            (targetrelsign : option string) (t : list event),
       1 < Z.of_nat (List.length argv) ->
       EAF.parse_target argv = (targetpos, targetrel, targetrelsign) ->
       0 <= targetpos <= 0xffff ->
       on_init api w = (0, w1) ->
       on_open api ZWO_USB_VENDOR_ID ZWO_USB_PRODUCT_ID_EAF w1
         = (Some devh, w2) ->
       EAF.wait_settled api fuel devh 0 0 w2 = (Ret (pos, posmax), w3, t) ->
       let target :=
         EAF.resolve_target pos targetpos targetrel targetrelsign in
       target < 0 \/ posmax < target ->
       exit_status (EAF.main api argv fuel w) = Some 2
       /\ focuser_commands (trace_of (EAF.main api argv fuel w)) = [].
Proof.
  split; [vm_compute; split; reflexivity|].
  split.
  { intros pos delta rest. unfold EAF.resolve_target. cbn. split; lia. }
  intros api argv fuel w w1 w2 w3 devh targetpos pos posmax targetrel
         targetrelsign t Hargc Hparse Hrange Hinit Hopen Hwait target Hout.
  assert (E : EAF.main api argv fuel w =
              (Exit 2, w3,
               EvInit 0
                 :: EvOpen ZWO_USB_VENDOR_ID ZWO_USB_PRODUCT_ID_EAF (Some devh)
                 :: (t ++ [EvPrint stdout "current pos = %d (max %d)\n"
                             [pos; posmax];
                           EvPrint stderr "requesting target %ld\n" [target];
                           EvPrint stderr "invalid target %ld\n" [target]])
                 ++ [EvClose; EvHidExit])).
  { rewrite eaf_main_run.
    rewrite (eaf_target_accepts argv targetpos targetrel targetrelsign)
      by assumption.
    unfold around_session. rewrite Hinit. change (negb (0 =? 0)) with false.
    cbv iota. rewrite Hopen.
    unfold EAF.session. unfold bind at 1. rewrite Hwait.
    unfold bind at 1. unfold printf at 1. cbn [fprintf emit].
    rewrite eaf_move_rejects by (try assumption; lia).
    reflexivity. }
  rewrite E. cbn [exit_status trace_of snd]. split; [reflexivity|].
  assert (Ht : focuser_commands t = []).
  { apply no_focuser_commands.
    pose proof (eaf_wait_settled_confined api no_focuser_command
                  (fun _ _ _ => I) (fun _ => I) (fun _ _ _ => I)
                  devh fuel (fun _ => eq_refl) 0 0 w2) as H.
    rewrite Hwait in H. exact H. }
  cbn [focuser_commands]. rewrite !focuser_commands_app, Ht. reflexivity.
Qed.

(** From 100, "-130" resolves to -30: rejected, nothing commanded. *)
Lemma focuser_target_resolved_and_checked_witness :
  exit_status (Examples.focuser_run "-130") = Some 2
  /\ focuser_commands (trace_of (Examples.focuser_run "-130")) = [].
Proof.
  destruct focuser_target_resolved_and_checked as (_ & _ & H).
  eapply (H Sim.focuser_api ["zwoeaf-set"; "-130"]%string 50%nat
            (Sim.focuser_at 100 60000 300) (Sim.focuser_at 100 60000 300)
            (Sim.focuser_at 100 60000 300) (Sim.focuser_at 100 60000 300)
            tt 130 100 60000 true (Some "-130"%string)).
  - reflexivity.
  - reflexivity.
  - lia.
  - reflexivity.
  - reflexivity.
  - vm_compute. reflexivity.
  - left. vm_compute. reflexivity.
Defined.






(** C9. For every current slot in [1,7] the next slot the move loop
    computes, [((slot - 1 + 1) mod 7) + 1], is in [1,7] again, so the
    invalid-slot branch of [efw_set_position] is never taken by a call from
    the move loop: the call goes on to send the command, and its result is
    that of the transfer. *)
Theorem nextslot_never_invalid :
  forall slot : Z,
    1 <= slot <= 7 ->
    1 <= EFW.nextslot slot <= 7
    /\ EFW.nextslot slot = (slot - 1 + 1) mod 7 + 1
    /\ forall (api : hidapi) (devh : hid_device) (w : world api),
         let frame := EFW.position_command (EFW.nextslot slot) in
         EFW.efw_set_position api devh (EFW.nextslot slot) w =
           (Ret (if fst (on_send api frame w) =? 16 then 0 else -1),
            snd (on_send api frame w),
            [EvSend frame (fst (on_send api frame w))])
         /\ forall (fuel : nat) (target : Z),
              slot <> target ->
              exists rest,
                trace_of (EFW.move_loop api (S fuel) devh slot target w) =
                  EvPrint stdout "request slot %d\n" [EFW.nextslot slot]
                    :: EvSend frame (fst (on_send api frame w)) :: rest.
Proof.
  intros slot Hslot.
  assert (Hn : 1 <= EFW.nextslot slot <= 7) by (apply nextslot_byte; lia).
  split; [exact Hn|].
  split; [apply nextslot_forward; lia|].
  intros api devh w frame.
  split; [apply efw_set_position_run, Hn|].
  intros fuel target Hne.
  cbn [EFW.move_loop].
  replace (slot =? target) with false by (symmetry; apply Z.eqb_neq, Hne).
  unfold bind at 1. unfold printf at 1. cbn [fprintf emit].
  unfold bind at 1. rewrite efw_set_position_run by exact Hn.
  fold frame. destruct (on_send api frame w) as [res w1]. cbn [fst snd].
  destruct (negb _).
  - eexists. reflexivity.
  - match goal with
    | |- context [bind ?m ?f w1] => destruct (bind m f w1) as [[r w2] t]
    end.
    eexists. reflexivity.
Qed.

(** After slot 7 comes slot 1. *)
Lemma nextslot_never_invalid_witness :
  1 <= EFW.nextslot 7 <= 7 /\ EFW.nextslot 7 = 1.
Proof.
  destruct (nextslot_never_invalid 7) as (H & E & _); [lia|].
  split; [exact H | rewrite E; reflexivity].
Defined.

(** C10. On every [eaf_get_position] call whose send and read both succeed,
    the position read from the report is written through the position
    pointer, and the maximum through the maximum pointer when the caller
    passed one, whatever the status byte says - also while the focuser is
    still moving. (Without a position pointer the call returns -1 before any
    transfer.) *)
Theorem eaf_get_position_writes_back :
  forall (api : hidapi) (devh : hid_device) (old : Z) (posmaxret : option Z)
         (w w1 w2 : world api) (data : list Z),
    on_send api (firstn 16 EAF.position_request) w = (16, w1) ->
    on_get api 1 17 w1 = ((16, data), w2) ->
    let buf := report_buffer data in
    exists res,
      value_of (EAF.eaf_get_position api devh (Some old) posmaxret w) =
        Some (res,
              Some (256 * load buf 8 + load buf 9),
              match posmaxret with
              | Some _ => Some (256 * load buf 14 + load buf 15)
              | None => None
              end)
      /\ (res = 0 <-> load buf 4 = 0)
      /\ (res = 1 <-> load buf 4 <> 0)
      /\ EAF.eaf_get_position api devh None posmaxret w
         = (Ret (-1, None, posmaxret), w, []).
Proof.
  intros api devh old posmaxret w w1 w2 data Hs Hg buf.
  pose proof (eaf_get_position_cases api devh old posmaxret w) as H.
  rewrite Hs, Hg in H. cbv zeta in H. destruct H as [t [_ E]].
  fold buf in E. rewrite E. clear E.
  change (negb (16 =? 16)) with false. cbv iota. cbn [value_of].
  unfold eaf_verdict. unfold buf. rewrite !report_be16. fold buf.
  eexists. split; [reflexivity|].
  destruct (Z.eqb_spec (load buf 4) 0); cbn [negb];
    (split; [split; intros; try lia; try congruence|]);
    (split; [split; intros; try lia; try congruence | reflexivity]).
Qed.

(** A poll of a focuser on its way, at 25046: the position is written back
    although the answer is "moving". *)
Lemma eaf_get_position_writes_back_witness :
  value_of (EAF.eaf_get_position
              (Sim.fixed_report (Sim.focuser_report 1 25046 60000))
              tt (Some 25000) None tt)
  = Some (1, Some 25046, None).
Proof.
  destruct (eaf_get_position_writes_back
              (Sim.fixed_report (Sim.focuser_report 1 25046 60000))
              tt 25000 None tt tt tt (Sim.focuser_report 1 25046 60000)
              eq_refl eq_refl)
    as (res & E & _ & H1 & _).
  rewrite E. replace res with 1; [reflexivity|].
  symmetry. apply H1. vm_compute. discriminate.
Defined.

(** * Further properties of the two programs *)

(** ** The diagnostic dump and the identity probe *)

Lemma memcmp_differs_spec n :
  forall a b,
    (n <= List.length a)%nat -> (n <= List.length b)%nat ->
    memcmp_differs a b n = false <-> firstn n a = firstn n b.
Proof.
  induction n as [|n IH]; intros a b Ha Hb; [cbn; tauto|].
  destruct a as [|x a]; [cbn in Ha; lia|].
  destruct b as [|y b]; [cbn in Hb; lia|].
  cbn [memcmp_differs firstn tl]. unfold load at 1 2. cbn [nth].
  rewrite orb_false_iff, negb_false_iff, Z.eqb_eq.
  rewrite (IH a b) by (cbn in Ha, Hb; lia).
  split; [intros [-> ->]; reflexivity | intros H; injection H; auto].
Qed.

Lemma overlay_length buf : forall data,
  List.length (overlay buf data) = List.length buf.
Proof.
  induction buf as [|b buf IH]; intros [|x data]; cbn; auto.
Qed.

Lemma report_buffer_length data : List.length (report_buffer data) = 17%nat.
Proof. unfold report_buffer. rewrite overlay_length. reflexivity. Qed.

Section Probe.
Context (api : hidapi).

Lemma dump_bytes_run buf n :
  forall i w,
    dump_bytes api buf i n w =
      (Ret tt, w,
       map (fun i => EvPrint stderr " %02x" [load buf i]) (seq i n)).
Proof.
  induction n as [|n IH]; intros i w; [reflexivity|].
  cbn [dump_bytes seq map]. unfold bind, fprintf, emit.
  rewrite IH. reflexivity.
Qed.

Lemma report_run (c : bool) msg buf w :
  (if c then
     fprintf api stderr msg [];;
     dump_bytes api buf 0 16;;
     fprintf api stderr "\n" []
   else ret tt) w
  = (Ret tt, w, if c then dump_events msg buf else []).
Proof.
  destruct c; [|reflexivity].
  unfold bind at 1. unfold fprintf at 1, emit.
  unfold bind at 1. rewrite dump_bytes_run.
  unfold fprintf, emit, dump_events. reflexivity.
Qed.

Lemma efw_get_info_run devh w :
  let '(sres, w1) := on_send api (firstn 16 EFW.info_request) w in
  let '((gres, data), w2) := on_get api 1 17 w1 in
  let buf := report_buffer data in
  EFW.efw_get_info api devh w =
    if negb (sres =? 16) then
      (Ret (-1), w1, [EvSend (firstn 16 EFW.info_request) sres])
    else if negb (gres =? 16) then
      (Ret (-1), w2,
       [EvSend (firstn 16 EFW.info_request) sres; EvGet 17 gres buf])
    else
      (Ret 0, w2,
       EvSend (firstn 16 EFW.info_request) sres
         :: EvGet 17 gres buf
         :: (if memcmp_differs EFW.expected buf 16
             then dump_events "unexpected values in info report: " buf
             else [])).
Proof.
  destruct (on_send api _ w) as [sres w1] eqn:Hs.
  destruct (on_get api 1 17 w1) as [[gres data] w2] eqn:Hg.
  cbv zeta. unfold EFW.efw_get_info.
  unfold bind at 1. unfold hid_send_feature_report.
  change (Z.to_nat ZWO_REPORT_LEN) with 16%nat. rewrite Hs.
  change ZWO_REPORT_LEN with 16.
  destruct (negb (sres =? 16)); [reflexivity|].
  unfold bind at 1. unfold hid_get_feature_report.
  change (load (store (memset 17 0) 0 1) 0) with 1.
  change (1 + 16) with 17. rewrite Hg.
  change (Z.to_nat 17) with 17%nat.
  fold (report_buffer data).
  destruct (negb (gres =? 16)); [reflexivity|].
  unfold bind at 1. rewrite report_run.
  unfold ret. rewrite app_nil_r. reflexivity.
Qed.
End Probe.

(** X1. The identity probe of the wheel, [efw_get_info], returns 0 exactly
    when both transfers moved 16 bytes and -1 otherwise, and a failed send
    is not followed by a read. A report that differs from the expected
    identity bytes is not an error: the probe still returns 0, and all that
    shows the difference is the dump of the 16 bytes on [stderr]; a report
    that matches leaves nothing on [stderr]. *)
Theorem efw_get_info_mismatch_not_fatal :
  forall (api : hidapi) (devh : hid_device) (w w1 w2 : world api)
         (sres gres : Z) (data : list Z),
    on_send api (firstn 16 EFW.info_request) w = (sres, w1) ->
    on_get api 1 17 w1 = ((gres, data), w2) ->
    let buf := report_buffer data in
    let run := EFW.efw_get_info api devh w in
    (value_of run = Some 0 <-> sres = 16 /\ gres = 16)
    /\ (value_of run = Some (-1) <-> sres <> 16 \/ gres <> 16)
    /\ (sres <> 16 ->
        trace_of run = [EvSend (firstn 16 EFW.info_request) sres])
    /\ (sres = 16 -> gres = 16 ->
        (firstn 16 buf = EFW.expected -> complaints (trace_of run) = [])
        /\ (firstn 16 buf <> EFW.expected ->
            trace_of run =
              EvSend (firstn 16 EFW.info_request) 16
                :: EvGet 17 16 buf
                :: dump_events "unexpected values in info report: " buf)).
Proof.
  intros api devh w w1 w2 sres gres data Hs Hg buf run.
  pose proof (efw_get_info_run api devh w) as E.
  rewrite Hs, Hg in E. cbv zeta in E. fold buf in E.
  assert (Hcmp : memcmp_differs EFW.expected buf 16 = false
                 <-> firstn 16 buf = EFW.expected).
  { rewrite memcmp_differs_spec.
    - change (firstn 16 EFW.expected) with EFW.expected.
      split; intros H; symmetry; exact H.
    - cbn. lia.
    - unfold buf. rewrite report_buffer_length. lia. }
  unfold run. rewrite E. clear E.
  destruct (Z.eqb_spec sres 16) as [Es|Es]; cbn [negb].
  - destruct (Z.eqb_spec gres 16) as [Eg|Eg]; cbn [negb value_of trace_of snd].
    + split; [tauto|]. split; [split; [discriminate | tauto]|].
      split; [tauto|]. intros _ _. subst sres gres. split.
      * intros H. apply Hcmp in H. rewrite H. reflexivity.
      * intros H.
        destruct (memcmp_differs EFW.expected buf 16); [reflexivity|].
        contradiction H. apply Hcmp. reflexivity.
    + split; [split; [discriminate | tauto]|].
      split; [tauto|]. split; tauto.
  - cbn [value_of trace_of snd].
    split; [split; [discriminate | tauto]|].
    split; [tauto|]. split; [reflexivity | tauto].
Qed.

Lemma efw_get_info_mismatch_not_fatal_witness :
  value_of (EFW.efw_get_info
              (Sim.fixed_report (Sim.wheel_report 1 3 3 3)) tt tt) = Some 0.
Proof.
  apply (proj1 (efw_get_info_mismatch_not_fatal
                  (Sim.fixed_report (Sim.wheel_report 1 3 3 3)) tt tt tt tt
                  16 16 (Sim.wheel_report 1 3 3 3) eq_refl eq_refl)).
  split; reflexivity.
Defined.

(** ** The device functions on their own *)



(** X3. [efw_get_position] always returns, and with -1, 0 or 1. The
    caller's slot variable is written only together with result 0, and then
    with a byte. With a NULL pointer the function returns -1 without
    touching the device, and a failed send is not followed by a read. *)
Theorem efw_get_position_touches_slot_only_when_settled :
  forall (api : hidapi) (devh : hid_device) (slotret : option Z)
         (w : world api),
    exists res slotp w' t,
      EFW.efw_get_position api devh slotret w = (Ret (res, slotp), w', t)
      /\ (res = -1 \/ res = 0 \/ res = 1)
      /\ (res <> 0 -> slotp = slotret)
      /\ (res = 0 -> exists s, slotp = Some s /\ is_byte s)
      /\ (slotret = None -> res = -1 /\ w' = w /\ t = [])
      /\ (slotret <> None ->
          fst (on_send api (firstn 16 EFW.position_request) w) <> 16 ->
          res = -1
          /\ t = [EvSend (firstn 16 EFW.position_request)
                    (fst (on_send api (firstn 16 EFW.position_request) w))]).
Proof.
  intros api devh [old|] w.
  2:{ do 4 eexists. split; [reflexivity|].
      repeat split; auto; try discriminate; congruence. }
  pose proof (efw_get_position_cases api devh old w) as H.
  destruct (on_send api _ w) as [sres w1].
  destruct (on_get api 1 17 w1) as [[gres data] w2].
  cbv zeta in H. destruct H as [t [_ E]]. rewrite E. clear E. cbn [fst].
  destruct (Z.eqb_spec sres 16) as [Es|Es]; cbn [negb].
  2:{ do 4 eexists. split; [reflexivity|].
      repeat split; auto; try discriminate. }
  destruct (Z.eqb_spec gres 16) as [Eg|Eg]; cbn [negb].
  2:{ do 4 eexists. split; [reflexivity|].
      repeat split; auto; try discriminate; contradiction. }
  set (buf := report_buffer data). unfold efw_verdict.
  destruct ((load buf 6 =? load buf 7) && (load buf 7 =? load buf 8)
            && (load buf 4 =? 1)).
  - do 4 eexists. split; [reflexivity|].
    split; [auto|]. split; [intros H; contradiction H; reflexivity|].
    split; [intros _; eexists; split;
              [reflexivity | apply report_buffer_byte]|].
    split; [discriminate | intros _ H; contradiction].
  - destruct ((load buf 4 =? 6) || negb (load buf 5 =? 0));
      do 4 eexists; (split; [reflexivity|]);
      repeat split; auto; try discriminate; try contradiction.
Qed.

Lemma efw_get_position_touches_slot_only_when_settled_witness :
  exists res slotp,
    value_of (EFW.efw_get_position (Sim.wheel_api 2) tt None (Sim.wheel_at 3))
      = Some (res, slotp)
    /\ res = -1.
Proof.
  destruct (efw_get_position_touches_slot_only_when_settled
              (Sim.wheel_api 2) tt None (Sim.wheel_at 3))
    as (res & slotp & w' & t & E & _ & _ & _ & H & _).
  exists res, slotp. split.
  - rewrite E. reflexivity.
  - apply (proj1 (H eq_refl)).
Defined.

(** X4. [eaf_get_position] always returns, and with -1, 0 or 1. With -1
    neither out-parameter is written; otherwise the position, and the
    maximum where the caller asked for it, are within [0, 65535]. With a
    NULL position pointer the function returns -1 without touching the
    device. *)
Theorem eaf_get_position_results_bounded :
  forall (api : hidapi) (devh : hid_device) (posret posmaxret : option Z)
         (w : world api),
    exists res posp maxp w' t,
      EAF.eaf_get_position api devh posret posmaxret w
        = (Ret (res, posp, maxp), w', t)
      /\ (res = -1 \/ res = 0 \/ res = 1)
      /\ (res = -1 -> posp = posret /\ maxp = posmaxret)
      /\ (res <> -1 -> exists pos, posp = Some pos /\ 0 <= pos <= 65535)
      /\ (res <> -1 -> posmaxret <> None ->
          exists posmax, maxp = Some posmax /\ 0 <= posmax <= 65535)
      /\ (posret = None -> res = -1 /\ w' = w /\ t = []).
Proof.
  intros api devh [old|] posmaxret w.
  2:{ do 5 eexists. split; [reflexivity|].
      repeat split; auto; try discriminate;
        intros H; contradiction H; reflexivity. }
  pose proof (eaf_get_position_cases api devh old posmaxret w) as H.
  destruct (on_send api _ w) as [sres w1].
  destruct (on_get api 1 17 w1) as [[gres data] w2].
  cbv zeta in H. destruct H as [t [_ E]]. rewrite E. clear E.
  destruct (negb (sres =? 16)).
  { do 5 eexists. split; [reflexivity|].
    repeat split; auto; try discriminate;
      intros H; contradiction H; reflexivity. }
  destruct (negb (gres =? 16)).
  { do 5 eexists. split; [reflexivity|].
    repeat split; auto; try discriminate;
      intros H; contradiction H; reflexivity. }
  set (buf := report_buffer data). unfold eaf_verdict.
  assert (Hbe : forall hi lo, 0 <= EAF.be16 buf hi lo <= 65535).
  { intros hi lo. unfold EAF.be16, u16.
    pose proof (Z.mod_pos_bound
                  (Z.lor (Z.shiftl (load buf hi) 8) (load buf lo)) 65536).
    lia. }
  do 5 eexists. split; [reflexivity|].
  split; [destruct (negb (load buf 4 =? 0)); auto|].
  split; [destruct (negb (load buf 4 =? 0)); discriminate|].
  split; [intros _; eexists; split; [reflexivity | apply Hbe]|].
  split; [|discriminate].
  intros _ Hmax. destruct posmaxret as [oldmax|]; [|contradiction].
  eexists; split; [reflexivity | apply Hbe].
Qed.

Lemma eaf_get_position_results_bounded_witness :
  exists res posp maxp,
    value_of (EAF.eaf_get_position Sim.focuser_api tt None (Some 0)
                (Sim.focuser_at 100 60000 300))
      = Some (res, posp, maxp)
    /\ res = -1.
Proof.
  destruct (eaf_get_position_results_bounded
              Sim.focuser_api tt None (Some 0) (Sim.focuser_at 100 60000 300))
    as (res & posp & maxp & w' & t & E & _ & _ & _ & _ & H).
  exists res, posp, maxp. split.
  - rewrite E. reflexivity.
  - apply (proj1 (H eq_refl)).
Defined.

(** ** The arguments and the early exits of [main] *)

(** [strtol] reads 0 from text that starts with neither blank, sign nor
    digit, and from the empty string. *)
Lemma strtol_no_numeral c s :
  isdigit c = false -> isspace c = false ->
  c <> "-"%char -> c <> "+"%char ->
  strtol (String c s) = 0.
Proof.
  destruct c as [[] [] [] [] [] [] [] []]; intros Hd Hs Hm Hp;
    try (cbv in Hd; discriminate Hd); try (cbv in Hs; discriminate Hs);
    try (contradiction Hm; reflexivity); try (contradiction Hp; reflexivity);
    reflexivity.
Qed.

Section Mains.
Context (api : hidapi).

Lemma efw_target_rejects argv :
  1 < Z.of_nat (List.length argv) ->
  strtol (nth 1 argv EmptyString) < 1 \/ 7 < strtol (nth 1 argv EmptyString) ->
  efw_target argv = None.
Proof.
  intros Hargc Hout. unfold efw_target.
  replace (1 <? Z.of_nat (List.length argv)) with true
    by (symmetry; apply Z.ltb_lt, Hargc).
  cbv zeta.
  replace ((strtol (nth 1 argv EmptyString) <? 1)
           || (7 <? strtol (nth 1 argv EmptyString))) with true;
    [reflexivity|].
  symmetry. apply orb_true_iff.
  destruct Hout; [left | right]; apply Z.ltb_lt; assumption.
Qed.

Lemma efw_target_accepts argv :
  1 < Z.of_nat (List.length argv) ->
  1 <= strtol (nth 1 argv EmptyString) <= 7 ->
  efw_target argv = Some (strtol (nth 1 argv EmptyString)).
Proof.
  intros Hargc Hin. unfold efw_target.
  replace (1 <? Z.of_nat (List.length argv)) with true
    by (symmetry; apply Z.ltb_lt, Hargc).
  cbv zeta.
  replace ((strtol (nth 1 argv EmptyString) <? 1)
           || (7 <? strtol (nth 1 argv EmptyString))) with false
    by (symmetry; apply orb_false_intro; apply Z.ltb_ge; lia).
  rewrite u8_small by (unfold is_byte; lia). reflexivity.
Qed.

Lemma efw_target_absent argv :
  Z.of_nat (List.length argv) <= 1 -> efw_target argv = Some 0.
Proof.
  intros H. unfold efw_target.
  replace (1 <? Z.of_nat (List.length argv)) with false
    by (symmetry; apply Z.ltb_ge, H).
  reflexivity.
Qed.

(** The trace of a run that got past its arguments starts with
    [hid_init]. *)
Lemma around_session_starts vendor product session w :
  exists rest,
    trace_of (around_session api vendor product session w) =
      EvInit (fst (on_init api w)) :: rest.
Proof.
  unfold around_session.
  destruct (on_init api w) as [res w1]. cbn [fst].
  destruct (negb (res =? 0)); [eexists; reflexivity|].
  destruct (on_open api _ _ w1) as [[devh|] w2]; [|eexists; reflexivity].
  destruct (session devh w2) as [[[[]|[]|code|] w3] t]; eexists; reflexivity.
Qed.

(** A session that cannot exit leaves [main] with exit code 0 or 2. *)
Lemma around_session_codes vendor product session w :
  (forall devh, confined api (fun _ => True) to_errexit (session devh)) ->
  match fst (fst (around_session api vendor product session w)) with
  | Exit code => code = 0 \/ code = 2
  | OutOfFuel => True
  | _ => False
  end.
Proof.
  intros Hs. unfold around_session.
  destruct (on_init api w) as [res w1].
  destruct (negb (res =? 0)); [cbn; auto|].
  destruct (on_open api _ _ w1) as [[devh|] w2]; [|cbn; auto].
  specialize (Hs devh w2).
  destruct (session devh w2) as [[[[]|[]|code|] w3] t]; cbn; auto.
  contradiction.
Qed.

(** What [main] does when the library or the device is not there. *)
Lemma around_session_early vendor product session w :
  (fst (on_init api w) <> 0 ->
   around_session api vendor product session w =
     (Exit 2, snd (on_init api w),
      [EvInit (fst (on_init api w));
       EvPrint stderr "hid_init failed\n" []]))
  /\ (fst (on_init api w) = 0 ->
      fst (on_open api vendor product (snd (on_init api w))) = None ->
      around_session api vendor product session w =
        (Exit 2, snd (on_open api vendor product (snd (on_init api w))),
         [EvInit 0; EvOpen vendor product None;
          EvPrint stderr "unable to open device\n" []; EvHidExit])).
Proof.
  unfold around_session.
  destruct (on_init api w) as [res w1]. cbn [fst snd].
  split.
  - intros Hres.
    replace (negb (res =? 0)) with true
      by (symmetry; apply negb_true_iff, Z.eqb_neq, Hres).
    reflexivity.
  - intros -> Hopen. cbn [negb Z.eqb].
    destruct (on_open api vendor product w1) as [[devh|] w2];
      [discriminate Hopen | reflexivity].
Qed.
End Mains.

(** X5. The wheel's [main] with an argument: a value read by [strtol]
    outside [1,7] ends the run with exit code 2 and one message on [stderr],
    before hidapi is initialised; a value inside goes on to [hid_init]. An
    empty argument, and one whose first character is neither white space, a
    sign nor a digit, is read as 0, hence rejected. *)
Theorem efw_argument_range_checked :
  forall (api : hidapi) (apple : bool) (argv : list string) (fuel : nat)
         (w : world api),
    1 < Z.of_nat (List.length argv) ->
    let argint := strtol (nth 1 argv EmptyString) in
    (argint < 1 \/ 7 < argint ->
     EFW.main api apple argv fuel w =
       (Exit 2, w, [EvPrint stderr "invalid filter slot requested\n" []]))
    /\ (1 <= argint <= 7 ->
        exists rest,
          trace_of (EFW.main api apple argv fuel w) =
            EvInit (fst (on_init api w)) :: rest)
    /\ (nth 1 argv EmptyString = EmptyString -> argint = 0)
    /\ (forall c s,
          nth 1 argv EmptyString = String c s ->
          isdigit c = false -> isspace c = false ->
          c <> "-"%char -> c <> "+"%char ->
          argint = 0).
Proof.
  intros api apple argv fuel w Hargc argint.
  split; [|split; [|split]].
  - intros Hout. rewrite efw_main_run.
    rewrite efw_target_rejects by assumption. reflexivity.
  - intros Hin. rewrite efw_main_run.
    rewrite efw_target_accepts by assumption.
    apply around_session_starts.
  - intros E. unfold argint. rewrite E. reflexivity.
  - intros c s E Hd Hs Hm Hp. unfold argint. rewrite E.
    apply strtol_no_numeral; assumption.
Qed.

Lemma efw_argument_range_checked_witness :
  EFW.main (Sim.wheel_api 2) false ["zwoefw-set"; "eight"]%string 50
    (Sim.wheel_at 3)
  = (Exit 2, Sim.wheel_at 3,
     [EvPrint stderr "invalid filter slot requested\n" []]).
Proof.
  refine (proj1 (efw_argument_range_checked (Sim.wheel_api 2) false
                   ["zwoefw-set"; "eight"]%string 50 (Sim.wheel_at 3) _) _).
  - reflexivity.
  - left. reflexivity.
Defined.

(** X6. A run of either program ends with exit code 0 or with exit code 2,
    unless it is still polling when the fuel runs out: [main] never returns
    and never leaves through a jump. *)
Theorem mains_exit_with_0_or_2 :
  forall (api : hidapi) (apple : bool) (argv : list string) (fuel : nat)
         (w : world api),
    match fst (fst (EFW.main api apple argv fuel w)) with
    | Exit code => code = 0 \/ code = 2
    | OutOfFuel => True
    | _ => False
    end
    /\ match fst (fst (EAF.main api argv fuel w)) with
       | Exit code => code = 0 \/ code = 2
       | OutOfFuel => True
       | _ => False
       end.
Proof.
  intros api apple argv fuel w. split.
  - rewrite efw_main_run.
    destruct (efw_target argv) as [targetslot|]; [|cbn; auto].
    apply around_session_codes. intros devh.
    apply efw_session_confined; intros; exact I.
  - rewrite eaf_main_run.
    destruct (eaf_target argv) as [[[targetpos targetrel] sign]|];
      [|cbn; auto].
    apply around_session_codes. intros devh.
    apply eaf_session_confined; intros; exact I.
Qed.

(** X7. In both programs, once the arguments are accepted: if [hid_init]
    fails, the run ends with exit code 2 right after the message, with no
    device opened and no [hid_exit]; if [hid_open] returns NULL, the run
    ends with exit code 2 after the message and [hid_exit], with no transfer
    and no [hid_close]. *)
Theorem mains_fail_early_without_handle :
  forall (api : hidapi) (apple : bool) (argv : list string) (fuel : nat)
         (w : world api),
    let init := on_init api w in
    (device_contact (trace_of (EFW.main api apple argv fuel w)) = true ->
     let open :=
       on_open api ZWO_USB_VENDOR_ID ZWO_USB_PRODUCT_ID_EFW (snd init) in
     (fst init <> 0 ->
      EFW.main api apple argv fuel w =
        (Exit 2, snd init,
         [EvInit (fst init); EvPrint stderr "hid_init failed\n" []]))
     /\ (fst init = 0 -> fst open = None ->
         EFW.main api apple argv fuel w =
           (Exit 2, snd open,
            [EvInit 0;
             EvOpen ZWO_USB_VENDOR_ID ZWO_USB_PRODUCT_ID_EFW None;
             EvPrint stderr "unable to open device\n" []; EvHidExit])))
    /\ (device_contact (trace_of (EAF.main api argv fuel w)) = true ->
        let open :=
          on_open api ZWO_USB_VENDOR_ID ZWO_USB_PRODUCT_ID_EAF (snd init) in
        (fst init <> 0 ->
         EAF.main api argv fuel w =
           (Exit 2, snd init,
            [EvInit (fst init); EvPrint stderr "hid_init failed\n" []]))
        /\ (fst init = 0 -> fst open = None ->
            EAF.main api argv fuel w =
              (Exit 2, snd open,
               [EvInit 0;
                EvOpen ZWO_USB_VENDOR_ID ZWO_USB_PRODUCT_ID_EAF None;
                EvPrint stderr "unable to open device\n" []; EvHidExit]))).
Proof.
  intros api apple argv fuel w init. split.
  - rewrite efw_main_run.
    destruct (efw_target argv) as [targetslot|]; [|discriminate].
    intros _ open. apply around_session_early.
  - rewrite eaf_main_run.
    destruct (eaf_target argv) as [[[targetpos targetrel] sign]|];
      [|discriminate].
    intros _ open. apply around_session_early.
Qed.

Lemma mains_fail_early_without_handle_witness :
  EFW.main (Faulty.no_library (-1)) false ["zwoefw-set"]%string 50 tt
    = (Exit 2, tt, [EvInit (-1); EvPrint stderr "hid_init failed\n" []])
  /\ EAF.main Faulty.no_device ["zwoeaf-set"]%string 50 tt
     = (Exit 2, tt,
        [EvInit 0; EvOpen ZWO_USB_VENDOR_ID ZWO_USB_PRODUCT_ID_EAF None;
         EvPrint stderr "unable to open device\n" []; EvHidExit]).
Proof.
  split.
  - refine (proj1 (proj1 (mains_fail_early_without_handle
                            (Faulty.no_library (-1)) false
                            ["zwoefw-set"]%string 50 tt) _) _).
    + reflexivity.
    + cbn. lia.
  - refine (proj2 (proj2 (mains_fail_early_without_handle
                            Faulty.no_device false
                            ["zwoeaf-set"]%string 50 tt) _) _ _).
    + reflexivity.
    + reflexivity.
    + reflexivity.
Defined.

(** ** The poll window and the steps of the wheel *)

Lemma sends_app t1 t2 : sends (t1 ++ t2) = (sends t1 + sends t2)%nat.
Proof.
  induction t1 as [|e t1 IH]; [reflexivity|].
  destruct e; cbn [sends app]; rewrite ?IH; reflexivity.
Qed.

Lemma prints_no_sends t : Forall is_print t -> sends t = O.
Proof.
  induction 1 as [|e t He Ht IH]; [reflexivity|].
  destruct e; try contradiction. exact IH.
Qed.

Section WheelRuns.
Context (api : hidapi).

Lemma efw_get_position_one_send devh slot w :
  sends (trace_of (EFW.efw_get_position api devh (Some slot) w)) = 1%nat.
Proof.
  pose proof (efw_get_position_cases api devh slot w) as H.
  destruct (on_send api _ w) as [sres w1].
  destruct (on_get api 1 17 w1) as [[gres data] w2].
  cbv zeta in H. destruct H as [t [Hp E]]. rewrite E.
  destruct (negb (sres =? 16)); [reflexivity|].
  destruct (negb (gres =? 16)); [reflexivity|].
  cbn [trace_of snd sends]. rewrite (prints_no_sends t Hp). reflexivity.
Qed.

(** The window polls at most once per iteration left, sleeps only after a
    poll, and is left early only with the wheel settled at [next]. *)
Lemma poll_window_bounded devh next n :
  forall i slot w,
    exists r w' t,
      EFW.poll_window api n i devh next slot w = (r, w', t)
      /\ (sends t <= n)%nat
      /\ (sleeps t <= sends t)%nat
      /\ match r with
         | Ret (i', slot') =>
             i' = i + Z.of_nat n
             \/ (i <= i' < i + Z.of_nat n /\ slot' = next
                 /\ sleeps t = Z.to_nat (i' - i))
         | _ => True
         end.
Proof.
  induction n as [|n IH]; intros i slot w.
  - do 3 eexists. split; [reflexivity|]. cbn. repeat split; auto. left. lia.
  - cbn [EFW.poll_window].
    pose proof (efw_get_position_one_send devh slot w) as Hone.
    destruct (efw_get_position_seen api devh slot w)
      as (res & slot' & w1 & t1 & E1 & _ & _ & _ & _ & Hs & _).
    rewrite E1 in Hone. cbn [trace_of snd] in Hone.
    unfold bind at 1. rewrite E1. cbn [deref].
    destruct (res =? -1).
    { do 3 eexists. split; [reflexivity|].
      rewrite !sends_app, !sleeps_app, Hone, Hs. cbn. repeat split; try lia. }
    destruct ((res =? 0) && (slot' =? next)) eqn:Hhit.
    { do 3 eexists. split; [reflexivity|]. rewrite app_nil_r, Hone, Hs.
      apply andb_true_iff in Hhit. destruct Hhit as [_ Hn].
      apply Z.eqb_eq in Hn.
      split; [lia|]. split; [lia|]. right.
      replace (i - i) with 0 by lia. repeat split; auto; lia. }
    destruct (IH (i + 1) slot' w1) as (r & w2 & t2 & E2 & IH1 & IH2 & IH3).
    unfold bind at 1. cbn [usleep emit]. rewrite E2.
    do 3 eexists. split; [reflexivity|].
    rewrite !sends_app, !sleeps_app, Hone, Hs.
    change (sends [EvUsleep (500 * 1000)]) with 0%nat.
    change (sleeps [EvUsleep (500 * 1000)]) with 1%nat.
    split; [lia|]. split; [lia|].
    destruct r as [[i' slot'']| | |]; auto.
    destruct IH3 as [-> | (Hi & -> & Hz)]; [left; lia|].
    right. repeat split; lia.
Qed.
End WheelRuns.

(** X8. The poll window of one wheel step, [for (i = 0; i < 100; i++)],
    queries the device at most 100 times and sleeps at most once per query.
    When it ends normally, either [i] is 100 or the window was left early
    with the wheel reported settled at the commanded slot, after exactly
    [i] sleeps. *)
Theorem wheel_window_polls_at_most_100_times :
  forall (api : hidapi) (devh : hid_device) (next slot : Z) (w : world api),
    let run := EFW.poll_window api 100 0 devh next slot w in
    (sends (trace_of run) <= 100)%nat
    /\ (sleeps (trace_of run) <= sends (trace_of run))%nat
    /\ forall i slot',
         value_of run = Some (i, slot') ->
         i = 100
         \/ (0 <= i < 100 /\ slot' = next
             /\ sleeps (trace_of run) = Z.to_nat i).
Proof.
  intros api devh next slot w run.
  destruct (poll_window_bounded api devh next 100 0 slot w)
    as (r & w' & t & E & H1 & H2 & H3).
  unfold run. rewrite E. cbn [trace_of snd value_of].
  split; [exact H1|]. split; [exact H2|].
  intros i slot' Hv.
  destruct r as [[i0 s0]| | |]; try discriminate Hv.
  injection Hv as -> ->.
  destruct H3 as [-> | (Hi & Hn & Hz)]; [left; reflexivity|].
  right. replace (i - 0) with i in Hz by lia. repeat split; auto; lia.
Qed.

Lemma wheel_window_polls_at_most_100_times_witness :
  4 = 100
  \/ (0 <= 4 < 100 /\ 6 = 6
      /\ sleeps (trace_of (EFW.poll_window (Sim.wheel_api 4) 100 0 tt 6 5
                             (snd (Sim.wheel_send 4 (EFW.position_command 6)
                                     (Sim.wheel_at 5)))))
         = Z.to_nat 4).
Proof.
  refine (proj2 (proj2 (wheel_window_polls_at_most_100_times
                          (Sim.wheel_api 4) tt 6 5
                          (snd (Sim.wheel_send 4 (EFW.position_command 6)
                                  (Sim.wheel_at 5))))) 4 6 _).
  vm_compute. reflexivity.
Defined.

(** X9. Stepping with [nextslot] from any slot in [1,7] arrives at any
    target in [1,7] after exactly (target - slot) mod 7 steps, at most 6,
    and not before: the test [slot != targetslot] of the move loop cannot be
    stepped over. *)
Theorem nextslot_reaches_every_slot :
  forall slot target : Z,
    1 <= slot <= 7 ->
    1 <= target <= 7 ->
    Nat.iter (steps_between slot target) EFW.nextslot slot = target
    /\ (steps_between slot target <= 6)%nat
    /\ forall k : nat,
         (k < steps_between slot target)%nat ->
         Nat.iter k EFW.nextslot slot <> target.
Proof.
  intros slot target Hslot Htarget.
  assert (Hs : slot = 1 \/ slot = 2 \/ slot = 3 \/ slot = 4
               \/ slot = 5 \/ slot = 6 \/ slot = 7) by lia.
  assert (Ht : target = 1 \/ target = 2 \/ target = 3 \/ target = 4
               \/ target = 5 \/ target = 6 \/ target = 7) by lia.
  clear Hslot Htarget.
  destruct Hs as [->|[->|[->|[->|[->|[->| ->]]]]]];
    destruct Ht as [->|[->|[->|[->|[->|[->| ->]]]]]];
    (split; [vm_compute; reflexivity|]);
    (split; [vm_compute; lia|]);
    intros k Hk; vm_compute in Hk;
    do 7 (destruct k as [|k]; [try lia; vm_compute; discriminate|]); lia.
Qed.

Lemma nextslot_reaches_every_slot_witness :
  Nat.iter (steps_between 6 2) EFW.nextslot 6 = 2.
Proof.
  refine (proj1 (nextslot_reaches_every_slot 6 2 _ _)); lia.
Defined.

(** ** Sessions of the wheel *)

Section WheelSessions.
Context (api : hidapi).

Lemma wait_settled_commandless devh fuel :
  forall slot w,
    commands (trace_of (EFW.wait_settled api fuel devh slot w)) = [].
Proof.
  induction fuel as [|fuel IH]; intros slot w; cbn [EFW.wait_settled].
  - reflexivity.
  - destruct (efw_get_position_seen api devh slot w)
      as (res & slot' & w1 & t1 & E1 & _ & _ & _ & _ & _ & Hc & _).
    rewrite bind_trace, E1. cbn [trace_of snd deref].
    rewrite commands_app, Hc. cbn [app].
    destruct (res =? -1); [reflexivity|].
    destruct (res =? 0); [reflexivity|].
    rewrite bind_trace. cbn [usleep emit trace_of snd].
    rewrite commands_app. apply IH.
Qed.

(** A move loop that returns has seen the wheel settled at the target. *)
Lemma move_loop_arrives devh target fuel :
  forall slot w,
    0 <= slot ->
    exists r w' t,
      EFW.move_loop api fuel devh slot target w = (r, w', t)
      /\ match r with
         | Ret s => s = target /\ current_after slot t = target
         | _ => True
         end.
Proof.
  induction fuel as [|fuel IH]; intros slot w Hslot; cbn [EFW.move_loop].
  - destruct (Z.eqb_spec slot target) as [->|];
      do 3 eexists; (split; [reflexivity|]); cbn; auto.
  - destruct (Z.eqb_spec slot target) as [->|Hne].
    { do 3 eexists. split; [reflexivity|]. cbn. auto. }
    assert (Hnext : 1 <= EFW.nextslot slot <= 7) by (apply nextslot_byte; lia).
    unfold bind at 1. unfold printf at 1. cbn [fprintf emit].
    unfold bind at 1. rewrite efw_set_position_run by assumption.
    destruct (negb _).
    { do 3 eexists. split; [reflexivity | exact I]. }
    destruct (poll_window_seen api devh (EFW.nextslot slot) 100 0 slot
                (snd (on_send api (EFW.position_command
                                     (EFW.nextslot slot)) w)) Hslot)
      as (r2 & w2 & t2 & E2 & _ & C2).
    unfold bind at 1. rewrite E2.
    destruct r2 as [[i slot']| | |];
      try (do 3 eexists; split; [reflexivity | exact I]).
    destruct C2 as [C2 Hslot'].
    destruct (IH slot' w2 Hslot') as (r3 & w3 & t3 & E3 & C3).
    unfold bind at 1. unfold printf at 1. cbn [fprintf emit]. rewrite E3.
    do 3 eexists. split; [reflexivity|].
    destruct r3 as [s| | |]; auto.
    destruct C3 as [-> C3]. split; [reflexivity|].
    cbn [app current_after].
    rewrite current_after_app, <- C2. cbn [app current_after]. exact C3.
Qed.

(** Where a session of the wheel program leaves the wheel. *)
Lemma session_outcome apple fuel devh targetslot w :
  exists r w' t,
    EFW.session api apple fuel devh targetslot w = (r, w', t)
    /\ (targetslot = 0 -> commands t = [])
    /\ (targetslot <> 0 -> r = Ret tt ->
        forall current, current_after current t = targetslot).
Proof.
  unfold EFW.session.
  pose proof (print_strings_confined api no_wheel_command
                (fun _ _ _ => I) (fun _ => I) (fun _ => I) apple devh w)
    as H1.
  unfold bind at 1.
  destruct (EFW.print_strings api apple devh w) as [[r1 w1] t1].
  assert (K1 : commands t1 = []).
  { apply no_wheel_commands.
    destruct r1 as [[]|l|code|]; try contradiction; tauto. }
  destruct r1 as [[]|l|code|];
    try (do 3 eexists; split; [reflexivity|]; split;
         [intros _; exact K1 | discriminate]).
  pose proof (efw_get_info_confined api no_wheel_command
                (fun _ _ _ => I) (fun _ _ _ => I) devh
                (fun _ => eq_refl) w1) as H2.
  unfold bind at 1.
  destruct (EFW.efw_get_info api devh w1) as [[r2 w2] t2].
  assert (K2 : commands t2 = []).
  { apply no_wheel_commands.
    destruct r2 as [r|l|code|]; try contradiction; tauto. }
  destruct r2 as [r|l|code|];
    try (do 3 eexists; split; [reflexivity|]; split;
         [intros _; rewrite commands_app, K1, K2; reflexivity
         | discriminate]).
  destruct (negb (r =? 0)).
  { do 3 eexists. split; [reflexivity|]. split; [|discriminate].
    intros _. rewrite !commands_app, K1, K2. reflexivity. }
  pose proof (wait_settled_commandless devh fuel 0 w2) as K3.
  destruct (wait_settled_seen api devh fuel 0 w2)
    as (r3 & w3 & t3 & E3 & _ & C3).
  rewrite E3 in K3. cbn [trace_of snd] in K3.
  unfold bind at 1. rewrite E3.
  destruct r3 as [slot|l|code|];
    try (do 3 eexists; split; [reflexivity|]; split;
         [intros _; rewrite !commands_app, K1, K2, K3; reflexivity
         | discriminate]).
  destruct C3 as [Hslot Hcur]. cbv zeta.
  destruct (move_loop_arrives devh
              (if targetslot =? 0 then slot else targetslot) fuel slot w3
              Hslot)
    as (r4 & w4 & t4 & E4 & C4).
  unfold bind at 1. rewrite E4.
  destruct r4 as [s|l|code|].
  - do 3 eexists. split; [reflexivity|]. destruct C4 as [-> C4]. split.
    + intros ->. cbn [Z.eqb] in E4.
      assert (K4 : t4 = []).
      { destruct fuel; cbn [EFW.move_loop] in E4;
          rewrite Z.eqb_refl in E4; inversion E4; reflexivity. }
      rewrite K4, !commands_app, K1, K2, K3. reflexivity.
    + intros Hts _ current.
      replace (targetslot =? 0) with false in C4
        by (symmetry; apply Z.eqb_neq, Hts).
      rewrite !current_after_app, Hcur, C4. reflexivity.
  - do 3 eexists. split; [reflexivity|]. split; [|discriminate].
    intros ->. cbn [Z.eqb] in E4.
    destruct fuel; cbn [EFW.move_loop] in E4;
      rewrite Z.eqb_refl in E4; discriminate E4.
  - do 3 eexists. split; [reflexivity|]. split; [|discriminate].
    intros ->. cbn [Z.eqb] in E4.
    destruct fuel; cbn [EFW.move_loop] in E4;
      rewrite Z.eqb_refl in E4; discriminate E4.
  - do 3 eexists. split; [reflexivity|]. split; [|discriminate].
    intros ->. cbn [Z.eqb] in E4.
    destruct fuel; cbn [EFW.move_loop] in E4;
      rewrite Z.eqb_refl in E4; discriminate E4.
Qed.
End WheelSessions.

(** X10. Without an argument the wheel's [main] only reports: its run
    sends no set-position command, whatever the device answers. *)
Theorem wheel_without_argument_commands_nothing :
  forall (api : hidapi) (apple : bool) (argv : list string) (fuel : nat)
         (w : world api),
    Z.of_nat (List.length argv) <= 1 ->
    commands (trace_of (EFW.main api apple argv fuel w)) = [].
Proof.
  intros api apple argv fuel w Hargc.
  rewrite efw_main_run, efw_target_absent by assumption.
  unfold around_session.
  destruct (on_init api w) as [res w1].
  destruct (negb (res =? 0)); [reflexivity|].
  destruct (on_open api _ _ w1) as [[devh|] w2]; [|reflexivity].
  destruct (session_outcome api apple fuel devh 0 w2)
    as (r & w3 & t & E & Hc & _).
  rewrite E. specialize (Hc eq_refl).
  destruct r as [[]|[]|code|]; cbn [trace_of snd commands];
    rewrite ?commands_app, Hc; reflexivity.
Qed.

Lemma wheel_without_argument_commands_nothing_witness :
  commands
    (trace_of (EFW.main (Sim.wheel_api 2) false ["zwoefw-set"]%string 50
                 (Sim.wheel_at 3)))
  = [].
Proof.
  apply (wheel_without_argument_commands_nothing (Sim.wheel_api 2) false
           ["zwoefw-set"]%string 50 (Sim.wheel_at 3)).
  cbn. lia.
Defined.

(** X11. A run of the wheel's [main] with an argument that ends with exit
    code 0 was given a slot in [1,7], and the last report of the run that
    showed the wheel settled showed it at that slot. *)
Theorem wheel_exit_0_means_settled_at_target :
  forall (api : hidapi) (apple : bool) (argv : list string) (fuel : nat)
         (w : world api),
    1 < Z.of_nat (List.length argv) ->
    exit_status (EFW.main api apple argv fuel w) = Some 0 ->
    1 <= strtol (nth 1 argv EmptyString) <= 7
    /\ forall current,
         current_after current (trace_of (EFW.main api apple argv fuel w))
           = strtol (nth 1 argv EmptyString).
Proof.
  intros api apple argv fuel w Hargc.
  set (slot := strtol (nth 1 argv EmptyString)).
  destruct (Z_lt_dec slot 1) as [Hlow|Hlow].
  { rewrite efw_main_run, efw_target_rejects by (auto; left; exact Hlow).
    discriminate. }
  destruct (Z_lt_dec 7 slot) as [Hhigh|Hhigh].
  { rewrite efw_main_run, efw_target_rejects by (auto; right; exact Hhigh).
    discriminate. }
  assert (Hin : 1 <= slot <= 7) by lia.
  rewrite efw_main_run, efw_target_accepts by assumption. fold slot.
  unfold around_session.
  destruct (on_init api w) as [res w1].
  destruct (negb (res =? 0)); [discriminate|].
  destruct (on_open api _ _ w1) as [[devh|] w2]; [|discriminate].
  pose proof (efw_session_confined api (fun _ => True)
                (fun _ _ _ => I) (fun _ => I) (fun _ _ _ => I)
                (fun _ => I) (fun _ => I)
                (fun _ _ => I) apple fuel devh slot w2) as Hnoexit.
  destruct (session_outcome api apple fuel devh slot w2)
    as (r & w3 & t & E & _ & Hc).
  rewrite E in Hnoexit |- *.
  destruct r as [[]|[]|code|]; cbn [exit_status]; try discriminate;
    try contradiction.
  intros _. split; [exact Hin|]. intros current.
  cbn [trace_of snd current_after].
  rewrite current_after_app, Hc by (auto; lia). reflexivity.
Qed.

Lemma wheel_exit_0_means_settled_at_target_witness :
  current_after 0 (trace_of Examples.wheel_3_to_6) = 6.
Proof.
  refine (proj2 (wheel_exit_0_means_settled_at_target (Sim.wheel_api 2) false
                   ["zwoefw-set"; "6"]%string 50 (Sim.wheel_at 3) _ _) 0).
  - reflexivity.
  - vm_compute. reflexivity.
Defined.

(** ** Sessions of the focuser *)

Lemma position_after_app t1 : forall pos t2,
  position_after pos (t1 ++ t2) = position_after (position_after pos t1) t2.
Proof.
  induction t1 as [|e t1 IH]; intros pos t2; [reflexivity|].
  destruct e; simpl; apply IH.
Qed.

Lemma prints_keep_position t :
  Forall is_print t -> forall pos, position_after pos t = pos.
Proof.
  induction 1 as [|e t He Ht IH]; intros pos; [reflexivity|].
  destruct e; try contradiction. apply IH.
Qed.

Lemma prints_no_focuser_command t :
  Forall is_print t -> focuser_commands t = [].
Proof.
  induction 1 as [|e t He Ht IH]; [reflexivity|].
  destruct e; try contradiction. exact IH.
Qed.

Lemma eaf_position_command_bytes pos :
  0 <= pos <= 65535 ->
  EAF.position_command pos =
    [0x03; 0x7e; 0x5a; 0x03; 0x01; 0x00; 0x00; 0x00;
     pos / 256; pos mod 256; 0x00; 0x00; 0x00; 0x02; 0xea; 0x60].
Proof.
  intros Hpos.
  cbv [EAF.position_command store_seq fold_left store_next store memset
       repeat fst snd].
  rewrite high_byte, low_byte by assumption. reflexivity.
Qed.

Lemma commanded_position_command pos :
  0 <= pos <= 65535 ->
  commanded_position (EAF.position_command pos) = Some pos.
Proof.
  intros Hpos. rewrite eaf_position_command_bytes by assumption.
  unfold commanded_position, load. cbn [nth].
  change ((3 =? 3) && (1 =? 1)) with true. cbv iota.
  f_equal. pose proof (Z.div_mod pos 256). lia.
Qed.

Section FocuserRuns.
Context (api : hidapi).

(** One poll of the focuser, as the readings of a trace see it. *)
Lemma eaf_get_position_seen devh pos posmaxret w :
  exists res pos' maxp w' t,
    EAF.eaf_get_position api devh (Some pos) posmaxret w
      = (Ret (res, Some pos', maxp), w', t)
    /\ position_after pos t = pos'
    /\ (res <> -1 -> forall p, position_after p t = pos')
    /\ focuser_commands t = []
    /\ sends t = 1%nat
    /\ sleeps t = O
    /\ (res = -1 \/ res = 0 \/ res = 1)
    /\ (forall oldmax, posmaxret = Some oldmax ->
        exists posmax, maxp = Some posmax
          /\ (0 <= oldmax <= 65535 -> 0 <= posmax <= 65535)).
Proof.
  pose proof (eaf_get_position_cases api devh pos posmaxret w) as H.
  destruct (on_send api _ w) as [sres w1].
  destruct (on_get api 1 17 w1) as [[gres data] w2].
  cbv zeta in H. destruct H as [t [Hp E]]. rewrite E. clear E.
  destruct (Z.eqb_spec sres 16) as [Es|Es]; cbn [negb].
  2:{ do 5 eexists. split; [reflexivity|]. cbn.
      repeat split; auto; try (intros H; contradiction H; reflexivity).
      intros oldmax ->. eauto. }
  destruct (Z.eqb_spec gres 16) as [Eg|Eg]; cbn [negb].
  2:{ do 5 eexists. split; [reflexivity|]. cbn.
      destruct (Z.eqb_spec gres 16); [contradiction|].
      repeat split; auto; try (intros H; contradiction H; reflexivity).
      intros oldmax ->. eauto. }
  subst sres gres. set (buf := report_buffer data).
  unfold eaf_verdict. unfold buf. rewrite report_be16. fold buf.
  do 5 eexists. split; [reflexivity|].
  assert (Hpos : forall p,
            position_after p
              (EvSend (firstn 16 EAF.position_request) 16
                 :: EvGet 17 16 buf :: t)
            = 256 * load buf 8 + load buf 9).
  { intros p. cbn [position_after]. change (16 =? 16) with true. cbv iota.
    apply prints_keep_position, Hp. }
  split; [apply Hpos|]. split; [intros _; exact Hpos|].
  split; [cbn; apply prints_no_focuser_command, Hp|].
  split; [cbn [sends]; rewrite (prints_no_sends t Hp); reflexivity|].
  split; [cbn [sleeps]; apply (prints_invisible t Hp)|].
  split; [destruct (negb (load buf 4 =? 0)); auto|].
  intros oldmax ->. eexists. split; [reflexivity|]. intros _.
  unfold EAF.be16, u16.
  pose proof (Z.mod_pos_bound
                (Z.lor (Z.shiftl (load buf 14) 8) (load buf 15)) 65536).
  lia.
Qed.

(** The first settle of the focuser commands nothing and ends on a report
    read in full: the position it returns is the one a reading of the trace
    ends with. *)
Lemma eaf_wait_settled_seen devh fuel :
  forall pos posmax w,
    0 <= posmax <= 65535 ->
    exists r w' t,
      EAF.wait_settled api fuel devh pos posmax w = (r, w', t)
      /\ focuser_commands t = []
      /\ match r with
         | Ret (pos', posmax') =>
             0 <= posmax' <= 65535
             /\ forall p, position_after p t = pos'
         | _ => True
         end.
Proof.
  induction fuel as [|fuel IH]; intros pos posmax w Hmax;
    cbn [EAF.wait_settled].
  - do 3 eexists. split; [reflexivity|]. cbn. auto.
  - destruct (eaf_get_position_seen devh pos (Some posmax) w)
      as (res & pos' & maxp & w1 & t1 & E1 & _ & P1 & K1 & _ & _ & R1 & M1).
    destruct (M1 posmax eq_refl) as (posmax' & -> & Hmax').
    unfold bind at 1. rewrite E1. cbn [deref].
    destruct (Z.eqb_spec res (-1)) as [Ef|Ef].
    { do 3 eexists. split; [reflexivity|]. split; [|exact I].
      rewrite focuser_commands_app, K1. reflexivity. }
    destruct (Z.eqb_spec res 0) as [E0|E0].
    { do 3 eexists. split; [reflexivity|]. rewrite app_nil_r.
      split; [exact K1|]. split; [auto | exact (P1 Ef)]. }
    destruct (IH pos' posmax' w1 (Hmax' Hmax))
      as (r & w2 & t2 & E2 & K2 & C2).
    unfold bind at 1. cbn [usleep emit]. rewrite E2.
    do 3 eexists. split; [reflexivity|]. split.
    + rewrite focuser_commands_app, K1. cbn. exact K2.
    + destruct r as [[p m]| | |]; auto.
      split; [apply C2|]. intros p0.
      rewrite position_after_app. cbn [app position_after]. apply C2.
Qed.

(** A tracking loop that returns ends on the target, and commands
    nothing. *)
Lemma track_loop_seen devh target fuel :
  forall pos w,
    exists r w' t,
      EAF.track_loop api fuel devh pos target w = (r, w', t)
      /\ focuser_commands t = []
      /\ match r with
         | Ret p => p = target /\ position_after pos t = target
         | _ => True
         end.
Proof.
  induction fuel as [|fuel IH]; intros pos w; cbn [EAF.track_loop].
  - destruct (Z.eqb_spec pos target) as [->|];
      do 3 eexists; (split; [reflexivity|]); cbn; auto.
  - destruct (Z.eqb_spec pos target) as [->|Hne].
    { do 3 eexists. split; [reflexivity|]. cbn. auto. }
    destruct (eaf_get_position_seen devh pos None w)
      as (res & pos' & maxp & w1 & t1 & E1 & C1 & _ & K1 & _).
    unfold bind at 1. rewrite E1. cbn [deref].
    destruct (res =? -1).
    { do 3 eexists. split; [reflexivity|]. split; [|exact I].
      rewrite focuser_commands_app, K1. reflexivity. }
    unfold bind at 1. unfold printf at 1. cbn [fprintf emit].
    destruct ((res =? 0) && (pos' =? target)) eqn:Hhit.
    { do 3 eexists. split; [reflexivity|].
      apply andb_true_iff in Hhit. destruct Hhit as [_ Hn].
      apply Z.eqb_eq in Hn.
      split; [rewrite !focuser_commands_app, K1; reflexivity|].
      split; [exact Hn|].
      rewrite position_after_app, C1. exact Hn. }
    destruct (IH pos' w1) as (r & w2 & t2 & E2 & K2 & C2).
    unfold bind at 1. cbn [usleep emit]. rewrite E2.
    do 3 eexists. split; [reflexivity|]. split.
    + rewrite !focuser_commands_app, K1. cbn. exact K2.
    + destruct r as [p| | |]; auto.
      split; [apply C2|].
      rewrite position_after_app, C1. cbn [app position_after]. apply C2.
Qed.
End FocuserRuns.

Section FocuserSessions.
Context (api : hidapi).

Lemma eaf_set_position_run devh pos w :
  0 <= pos <= 65535 ->
  EAF.eaf_set_position api devh pos w =
    (Ret (if fst (on_send api (EAF.position_command pos) w) =? 16
          then 0 else -1),
     snd (on_send api (EAF.position_command pos) w),
     [EvSend (EAF.position_command pos)
             (fst (on_send api (EAF.position_command pos) w))]).
Proof.
  intros Hpos. unfold EAF.eaf_set_position.
  unfold bind, hid_send_feature_report.
  change (Z.to_nat ZWO_REPORT_LEN) with 16%nat.
  replace (firstn 16 (EAF.position_command pos))
    with (EAF.position_command pos)
    by (rewrite eaf_position_command_bytes by assumption; reflexivity).
  destruct (on_send api (EAF.position_command pos) w) as [res w1].
  cbn [fst snd]. change ZWO_REPORT_LEN with 16.
  destruct (res =? 16); reflexivity.
Qed.

(** The move block: nothing at all without a target; otherwise at most
    one command, and a block that ends normally has commanded the resolved
    target, within the device's range, and seen the focuser there. *)
Lemma eaf_move_seen fuel devh pos posmax targetpos rel sign w :
  0 <= posmax <= 65535 ->
  exists r w' t,
    EAF.move api fuel devh pos posmax targetpos rel sign w = (r, w', t)
    /\ (targetpos = -1 -> r = Ret tt /\ t = [])
    /\ (List.length (focuser_commands t) <= 1)%nat
    /\ (targetpos <> -1 -> r = Ret tt ->
        let target := EAF.resolve_target pos targetpos rel sign in
        0 <= target <= posmax
        /\ focuser_commands t = [target]
        /\ position_after pos t = target).
Proof.
  intros Hmax. unfold EAF.move.
  destruct (Z.eqb_spec targetpos (-1)) as [->|Hne]; cbn [negb].
  { do 3 eexists. split; [reflexivity|]. cbn.
    split; [auto|]. split; [lia|]. intros H; contradiction H; reflexivity. }
  set (target := EAF.resolve_target pos targetpos rel sign).
  unfold bind at 1. cbn [fprintf emit].
  destruct (Z.ltb_spec target 0) as [Hlow|Hlow]; cbn [orb].
  { do 3 eexists. split; [reflexivity|]. cbn.
    repeat split; auto; try contradiction; discriminate. }
  destruct (Z.ltb_spec posmax target) as [Hhigh|Hhigh].
  { do 3 eexists. split; [reflexivity|]. cbn.
    repeat split; auto; try contradiction; discriminate. }
  assert (Hin : 0 <= target <= 65535) by lia.
  assert (Hu : u16 target = target) by (apply Z.mod_small; lia).
  rewrite Hu. unfold bind at 1. rewrite eaf_set_position_run by assumption.
  destruct (on_send api (EAF.position_command target) w) as [sres w1].
  cbn [fst snd].
  destruct (Z.eqb_spec sres 16) as [->|Hs].
  2:{ change (negb (-1 =? 0)) with true. cbv iota.
      do 3 eexists. split; [reflexivity|]. cbn [app focuser_commands].
      rewrite commanded_position_command by assumption.
      cbn. repeat split; auto; try contradiction; discriminate. }
  change (negb (0 =? 0)) with false. cbv iota.
  destruct (track_loop_seen api devh target fuel pos w1)
    as (r & w2 & t & E & K & C).
  unfold bind at 1. rewrite E.
  destruct r as [p|l|code|];
    try (do 3 eexists; split; [reflexivity|]; cbn [app focuser_commands];
         rewrite commanded_position_command by assumption;
         rewrite ?focuser_commands_app, K; cbn;
         repeat split; auto; try contradiction; discriminate).
  do 3 eexists. split; [reflexivity|]. cbn [app focuser_commands].
  rewrite commanded_position_command by assumption.
  rewrite ?focuser_commands_app, K. cbn [app List.length].
  cbn [focuser_commands List.length].
  split; [intros; contradiction|]. split; [lia|].
  intros _ _. split; [lia|]. split; [reflexivity|].
  cbn [position_after]. rewrite app_nil_r. apply C.
Qed.

(** Where a session of the focuser program leaves the focuser. *)
Lemma eaf_session_outcome fuel devh targetpos rel sign w :
  exists r w' t,
    EAF.session api fuel devh targetpos rel sign w = (r, w', t)
    /\ (targetpos = -1 -> focuser_commands t = [])
    /\ (List.length (focuser_commands t) <= 1)%nat
    /\ (targetpos <> -1 -> r = Ret tt ->
        exists pos posmax,
          let target := EAF.resolve_target pos targetpos rel sign in
          0 <= target <= posmax /\ posmax <= 65535
          /\ focuser_commands t = [target]
          /\ forall p, position_after p t = target).
Proof.
  unfold EAF.session.
  destruct (eaf_wait_settled_seen api devh fuel 0 0 w ltac:(lia))
    as (r1 & w1 & t1 & E1 & K1 & C1).
  unfold bind at 1. rewrite E1.
  destruct r1 as [[pos posmax]|l|code|];
    try (do 3 eexists; split; [reflexivity|]; rewrite K1; cbn;
         repeat split; auto; discriminate).
  destruct C1 as [Hmax P1].
  unfold bind at 1. unfold printf at 1. cbn [fprintf emit].
  destruct (eaf_move_seen fuel devh pos posmax targetpos rel sign w1 Hmax)
    as (r2 & w2 & t2 & E2 & N2 & L2 & C2).
  rewrite E2.
  do 3 eexists. split; [reflexivity|].
  rewrite !focuser_commands_app, K1. cbn [app focuser_commands].
  split; [intros H; destruct (N2 H) as [_ ->]; reflexivity|].
  split; [exact L2|].
  intros Hne Hr.
  assert (Hr2 : r2 = Ret tt) by (destruct r2 as [[]| | |]; auto; discriminate).
  destruct (C2 Hne Hr2) as (Hin & Hc & Hp).
  exists pos, posmax. cbv zeta. split; [exact Hin|]. split; [lia|].
  split; [exact Hc|]. intros p.
  rewrite !position_after_app, P1. cbn [position_after]. exact Hp.
Qed.
End FocuserSessions.

Lemma eaf_target_absent argv :
  Z.of_nat (List.length argv) <= 1 ->
  eaf_target argv = Some (-1, false, None).
Proof.
  intros H. unfold eaf_target, EAF.parse_target.
  replace (1 <? Z.of_nat (List.length argv)) with false
    by (symmetry; apply Z.ltb_ge; lia).
  reflexivity.
Qed.

Lemma eaf_target_never_unset argv targetpos rel sign :
  1 < Z.of_nat (List.length argv) ->
  eaf_target argv = Some (targetpos, rel, sign) ->
  (targetpos, rel, sign) = EAF.parse_target argv
  /\ 0 <= targetpos <= 65535.
Proof.
  intros H. unfold eaf_target.
  destruct (EAF.parse_target argv) as [[tp r] s].
  replace (1 <? Z.of_nat (List.length argv)) with true
    by (symmetry; apply Z.ltb_lt; lia).
  cbn [andb].
  destruct (Z.ltb_spec tp 0); cbn [orb]; [discriminate|].
  destruct (Z.ltb_spec 65535 tp); [discriminate|].
  intros E. inversion E; subst. split; [reflexivity | lia].
Qed.

(** X12. A run of the focuser's [main] sends at most one set-position
    command, and none without an argument. *)
Theorem focuser_commands_at_most_once :
  forall (api : hidapi) (argv : list string) (fuel : nat) (w : world api),
    (List.length (focuser_commands (trace_of (EAF.main api argv fuel w)))
       <= 1)%nat
    /\ (Z.of_nat (List.length argv) <= 1 ->
        focuser_commands (trace_of (EAF.main api argv fuel w)) = []).
Proof.
  intros api argv fuel w.
  assert (H : forall tp rel sign,
            eaf_target argv = Some (tp, rel, sign) ->
            let t := trace_of
                       (around_session api ZWO_USB_VENDOR_ID
                          ZWO_USB_PRODUCT_ID_EAF
                          (fun devh => EAF.session api fuel devh tp rel sign)
                          w) in
            (List.length (focuser_commands t) <= 1)%nat
            /\ (tp = -1 -> focuser_commands t = [])).
  { intros tp rel sign _. unfold around_session.
    destruct (on_init api w) as [res w1].
    destruct (negb (res =? 0)); [cbn; auto|].
    destruct (on_open api _ _ w1) as [[devh|] w2]; [|cbn; auto].
    destruct (eaf_session_outcome api fuel devh tp rel sign w2)
      as (r & w3 & t & E & Hn & Hl & _).
    rewrite E.
    destruct r as [[]|[]|code|]; cbn [trace_of snd focuser_commands];
      rewrite ?focuser_commands_app; cbn [focuser_commands app];
      rewrite ?app_nil_r; auto. }
  rewrite eaf_main_run.
  destruct (eaf_target argv) as [[[tp rel] sign]|] eqn:Et.
  - destruct (H tp rel sign eq_refl) as [Hl Hn]. split; [exact Hl|].
    intros Hargc. rewrite eaf_target_absent in Et by assumption.
    inversion Et; subst. apply Hn. reflexivity.
  - cbn. auto.
Qed.

Lemma focuser_commands_at_most_once_witness :
  focuser_commands
    (trace_of (EAF.main Sim.focuser_api ["zwoeaf-set"]%string 50
                 (Sim.focuser_at 100 60000 300)))
  = [].
Proof.
  refine (proj2 (focuser_commands_at_most_once Sim.focuser_api
                   ["zwoeaf-set"]%string 50 (Sim.focuser_at 100 60000 300))
            _).
  cbn. lia.
Defined.

(** X13. A run of the focuser's [main] with an argument that ends with
    exit code 0 has commanded exactly one position: the target resolved from
    the argument and a position [pos], within [0, posmax] with [posmax] at
    most 65535; and the last report the run read in full showed the focuser
    at that target. *)
Theorem focuser_exit_0_means_arrived :
  forall (api : hidapi) (argv : list string) (fuel : nat) (w : world api)
         (targetpos : Z) (rel : bool) (sign : option string),
    1 < Z.of_nat (List.length argv) ->
    EAF.parse_target argv = (targetpos, rel, sign) ->
    exit_status (EAF.main api argv fuel w) = Some 0 ->
    exists pos posmax,
      let target := EAF.resolve_target pos targetpos rel sign in
      0 <= target <= posmax /\ posmax <= 65535
      /\ focuser_commands (trace_of (EAF.main api argv fuel w)) = [target]
      /\ forall p,
           position_after p (trace_of (EAF.main api argv fuel w)) = target.
Proof.
  intros api argv fuel w targetpos rel sign Hargc Hparse.
  rewrite eaf_main_run.
  destruct (eaf_target argv) as [[[tp r] s]|] eqn:Et; [|discriminate].
  destruct (eaf_target_never_unset argv tp r s Hargc Et) as [Ep Hin].
  rewrite Hparse in Ep. inversion Ep; subst tp r s. clear Ep.
  unfold around_session.
  destruct (on_init api w) as [res w1].
  destruct (negb (res =? 0)); [discriminate|].
  destruct (on_open api _ _ w1) as [[devh|] w2]; [|discriminate].
  pose proof (eaf_session_confined api (fun _ => True)
                (fun _ _ _ => I) (fun _ => I) (fun _ _ _ => I)
                (fun _ _ => I) fuel devh targetpos rel sign w2) as Hnoexit.
  destruct (eaf_session_outcome api fuel devh targetpos rel sign w2)
    as (r & w3 & t & E & _ & _ & Hc).
  rewrite E in Hnoexit |- *.
  destruct r as [[]|[]|code|]; cbn [exit_status]; try discriminate;
    try contradiction.
  intros _.
  destruct (Hc ltac:(lia) eq_refl) as (pos & posmax & H1 & H2 & H3 & H4).
  exists pos, posmax. cbv zeta. split; [exact H1|]. split; [exact H2|].
  cbn [trace_of snd focuser_commands position_after].
  split.
  - rewrite focuser_commands_app, H3. reflexivity.
  - intros p. rewrite position_after_app, H4. reflexivity.
Qed.

Lemma focuser_exit_0_means_arrived_witness :
  exists pos posmax,
    0 <= pos + 30 <= posmax
    /\ focuser_commands (trace_of (Examples.focuser_run "+30"))
       = [pos + 30].
Proof.
  destruct (focuser_exit_0_means_arrived Sim.focuser_api
              ["zwoeaf-set"; "+30"]%string 50 (Sim.focuser_at 100 60000 300)
              30 true (Some "+30"%string))
    as (pos & posmax & H1 & _ & H3 & _).
  - cbn. lia.
  - reflexivity.
  - vm_compute. reflexivity.
  - exists pos, posmax. split; [|exact H3].
    replace (pos + 30) with (pos + 30 * 1) by lia. exact H1.
Defined.

(** ** The frames on the wire *)

Section Wire.
Context (api : hidapi).
Variable P : event -> Prop.
Hypothesis Pprint : forall out fmt args, P (EvPrint out fmt args).
Hypothesis Psleep : forall usec, P (EvUsleep usec).
Hypothesis Pmanufacturer : forall res, P (EvManufacturer res).
Hypothesis Pproduct : forall res, P (EvProduct res).
Hypothesis Pget :
  forall res buf, List.length buf = 17%nat -> P (EvGet 17 res buf).
Hypothesis Psend :
  forall data res, frame_ok data = true -> P (EvSend data res).

Lemma wire_send devh buf :
  frame_ok (firstn 16 buf) = true ->
  confined api P to_errexit
    (hid_send_feature_report api devh buf ZWO_REPORT_LEN).
Proof. intros H. apply confined_send. intros res. apply Psend, H. Qed.

Lemma wire_get devh :
  confined api P to_errexit
    (hid_get_feature_report api devh (store (memset 17 0) 0 0x01)
       (1 + ZWO_REPORT_LEN)).
Proof.
  intros w. unfold hid_get_feature_report.
  destruct (on_get api _ _ w) as [[res data] w1].
  repeat constructor. apply Pget. apply overlay_length.
Qed.

Lemma wire_dump buf n :
  forall i, confined api P to_errexit (dump_bytes api buf i n).
Proof.
  induction n as [|n IH]; intros i; cbn [dump_bytes].
  - apply confined_ret.
  - apply confined_bind; [apply confined_emit, Pprint | intros _; apply IH].
Qed.

Lemma wire_print out fmt args :
  confined api P to_errexit (fprintf api out fmt args).
Proof. apply confined_emit, Pprint. Qed.

Lemma wire_usleep usec : confined api P to_errexit (usleep api usec).
Proof. apply confined_emit, Psleep. Qed.

Ltac wire :=
  repeat first
    [ progress intros
    | apply confined_ret
    | apply confined_out_of_fuel
    | apply wire_print
    | apply wire_usleep
    | apply wire_dump
    | apply wire_get
    | match goal with
      | |- confined _ _ _ (bind _ _) => apply confined_bind
      | |- confined _ _ _ (if _ then _ else _) => apply confined_if
      | |- confined _ _ _ (goto _) => apply confined_goto; reflexivity
      | |- confined _ _ _ (let '(_, _) := ?p in _) => destruct p
      | |- confined _ _ _ (match ?p with Some _ => _ | None => _ end) =>
          destruct p
      end ].

Lemma efw_get_info_wire devh :
  confined api P to_errexit (EFW.efw_get_info api devh).
Proof.
  unfold EFW.efw_get_info. wire. apply wire_send. reflexivity.
Qed.

Lemma efw_set_position_wire devh slot :
  confined api P to_errexit (EFW.efw_set_position api devh slot).
Proof.
  unfold EFW.efw_set_position. wire. apply wire_send. reflexivity.
Qed.

Lemma efw_get_position_wire devh slotret :
  confined api P to_errexit (EFW.efw_get_position api devh slotret).
Proof.
  unfold EFW.efw_get_position, printf.
  destruct slotret; wire. apply wire_send. reflexivity.
Qed.

Lemma eaf_set_position_wire devh pos :
  confined api P to_errexit (EAF.eaf_set_position api devh pos).
Proof.
  unfold EAF.eaf_set_position. wire. apply wire_send. reflexivity.
Qed.

Lemma eaf_get_position_wire devh posret posmaxret :
  confined api P to_errexit
    (EAF.eaf_get_position api devh posret posmaxret).
Proof.
  unfold EAF.eaf_get_position, printf.
  destruct posret; wire. apply wire_send. reflexivity.
Qed.

Lemma print_strings_wire apple devh :
  confined api P to_errexit (EFW.print_strings api apple devh).
Proof.
  unfold EFW.print_strings, printf.
  apply confined_if; [wire|].
  apply confined_bind.
  { intros w. unfold hid_get_manufacturer_string.
    destruct (on_manufacturer api w). repeat constructor.
    apply Pmanufacturer. }
  intros res. wire.
  intros w. unfold hid_get_product_string.
  destruct (on_product api w). repeat constructor. apply Pproduct.
Qed.

Lemma efw_wait_settled_wire devh fuel :
  forall slot,
    confined api P to_errexit (EFW.wait_settled api fuel devh slot).
Proof.
  induction fuel as [|fuel IH]; intros slot; cbn [EFW.wait_settled].
  - wire.
  - apply confined_bind; [apply efw_get_position_wire|].
    intros [res slotp]. wire; try apply IH.
Qed.

Lemma poll_window_wire devh next n :
  forall i slot,
    confined api P to_errexit (EFW.poll_window api n i devh next slot).
Proof.
  induction n as [|n IH]; intros i slot; cbn [EFW.poll_window].
  - wire.
  - apply confined_bind; [apply efw_get_position_wire|].
    intros [res slotp]. wire; try apply IH.
Qed.

Lemma move_loop_wire devh target fuel :
  forall slot,
    confined api P to_errexit (EFW.move_loop api fuel devh slot target).
Proof.
  induction fuel as [|fuel IH]; intros slot; cbn [EFW.move_loop].
  - wire.
  - unfold printf. apply confined_if; [wire|].
    apply confined_bind; [wire|]. intros _.
    apply confined_bind; [apply efw_set_position_wire|]. intros r.
    apply confined_if; [wire|].
    apply confined_bind; [apply poll_window_wire|]. intros [i slot'].
    apply confined_bind; [wire | intros _; apply IH].
Qed.

Lemma efw_session_wire apple fuel devh targetslot :
  confined api P to_errexit (EFW.session api apple fuel devh targetslot).
Proof.
  unfold EFW.session, printf.
  apply confined_bind; [apply print_strings_wire|]. intros _.
  apply confined_bind; [apply efw_get_info_wire|].
  intros r. apply confined_if; [wire|].
  apply confined_bind; [apply efw_wait_settled_wire|]. intros slot.
  apply confined_bind; [apply move_loop_wire|]. wire.
Qed.

Lemma eaf_wait_settled_wire devh fuel :
  forall pos posmax,
    confined api P to_errexit (EAF.wait_settled api fuel devh pos posmax).
Proof.
  induction fuel as [|fuel IH]; intros pos posmax; cbn [EAF.wait_settled].
  - wire.
  - apply confined_bind; [apply eaf_get_position_wire|].
    intros [[res posp] maxp]. wire; try apply IH.
Qed.

Lemma track_loop_wire devh target fuel :
  forall pos,
    confined api P to_errexit (EAF.track_loop api fuel devh pos target).
Proof.
  induction fuel as [|fuel IH]; intros pos; cbn [EAF.track_loop].
  - wire.
  - unfold printf. apply confined_if; [wire|].
    apply confined_bind; [apply eaf_get_position_wire|].
    intros [[res posp] maxp]. wire; try apply IH.
Qed.

Lemma eaf_session_wire fuel devh targetpos rel sign :
  confined api P to_errexit (EAF.session api fuel devh targetpos rel sign).
Proof.
  unfold EAF.session, EAF.move, printf.
  apply confined_bind; [apply eaf_wait_settled_wire|].
  intros [pos posmax]. apply confined_bind; [wire|]. intros _.
  apply confined_if; [|wire].
  apply confined_bind; [wire|]. intros _.
  apply confined_if; [wire|].
  apply confined_bind; [apply eaf_set_position_wire|]. intros r.
  apply confined_if; [wire|].
  apply confined_bind; [apply track_loop_wire | wire].
Qed.

Hypothesis Pinit : forall res, P (EvInit res).
Hypothesis Popen : forall vendor product h, P (EvOpen vendor product h).
Hypothesis Pclose : P EvClose.
Hypothesis Phidexit : P EvHidExit.

Lemma around_session_wire vendor product session w :
  (forall devh, confined api P to_errexit (session devh)) ->
  Forall P (trace_of (around_session api vendor product session w)).
Proof.
  intros Hs. unfold around_session.
  destruct (on_init api w) as [res w1].
  destruct (negb (res =? 0)); [repeat constructor; auto|].
  destruct (on_open api _ _ w1) as [[devh|] w2];
    [|repeat constructor; auto].
  specialize (Hs devh w2).
  destruct (session devh w2) as [[[[]|[]|code|] w3] t];
    cbn [trace_of snd]; try contradiction;
    repeat (apply Forall_cons; auto); try apply Forall_app;
    try split; try tauto; repeat constructor; auto.
Qed.
End Wire.

(** X14. On every run of either program, every frame sent is 16 bytes long
    and starts with 03 7e 5a, and every read asks for 17 bytes into a
    17-byte buffer. *)
Theorem frames_well_formed :
  (forall (api : hidapi) (apple : bool) (argv : list string) (fuel : nat)
          (w : world api),
      Forall transfer_ok (trace_of (EFW.main api apple argv fuel w)))
  /\ (forall (api : hidapi) (argv : list string) (fuel : nat)
             (w : world api),
        Forall transfer_ok (trace_of (EAF.main api argv fuel w))).
Proof.
  split.
  - intros api apple argv fuel w. rewrite efw_main_run.
    destruct (efw_target argv) as [targetslot|];
      [|repeat constructor].
    apply around_session_wire; try (intros; exact I).
    intros devh. apply efw_session_wire; try (intros; exact I).
    + intros res buf H. split; [reflexivity | exact H].
    + intros data res H. exact H.
  - intros api argv fuel w. rewrite eaf_main_run.
    destruct (eaf_target argv) as [[[tp rel] sign]|];
      [|repeat constructor].
    apply around_session_wire; try (intros; exact I).
    intros devh. apply eaf_session_wire; try (intros; exact I).
    + intros res buf H. split; [reflexivity | exact H].
    + intros data res H. exact H.
Qed.

(** ** Failing fast *)

Lemma clean_app t1 t2 : clean t1 -> clean t2 -> clean (t1 ++ t2).
Proof.
  unfold clean. intros H1 H2. rewrite existsb_app, H1, H2. reflexivity.
Qed.

Lemma clean_stops t : clean t -> stops_at_failure t = true.
Proof.
  unfold clean. induction t as [|e t IH]; [reflexivity|].
  cbn [existsb stops_at_failure]. intros H.
  apply orb_false_iff in H. destruct H as [-> H]. apply IH, H.
Qed.

Lemma stops_after_clean t1 t2 :
  clean t1 -> stops_at_failure t2 = true ->
  stops_at_failure (t1 ++ t2) = true.
Proof.
  unfold clean. induction t1 as [|e t1 IH]; intros H1 H2; [exact H2|].
  cbn [existsb] in H1. apply orb_false_iff in H1. destruct H1 as [He H1].
  cbn [app stops_at_failure]. rewrite He. apply IH; assumption.
Qed.

Lemma stops_then_silent t1 t2 :
  stops_at_failure t1 = true -> silent t2 ->
  stops_at_failure (t1 ++ t2) = true.
Proof.
  unfold silent. induction t1 as [|e t1 IH]; intros H1 H2.
  - apply clean_stops. unfold clean. cbn [app].
    induction t2 as [|e t2 IH2]; [reflexivity|].
    cbn [existsb] in H2 |- *. apply orb_false_iff in H2.
    destruct H2 as [He H2]. rewrite (IH2 H2).
    destruct e; try discriminate He; reflexivity.
  - cbn [app stops_at_failure] in H1 |- *.
    destruct (failed_transfer e).
    + rewrite existsb_app, H2.
      apply negb_true_iff in H1. rewrite H1. reflexivity.
    + apply IH; assumption.
Qed.

Section FailFastRules.
Context (api : hidapi).

Lemma fail_fast_ret {A} (bad : A -> bool) (a : A) :
  fail_fast api bad (ret a).
Proof. intros w. cbn. split; reflexivity. Qed.

Lemma fail_fast_out_of_fuel {A} (bad : A -> bool) :
  fail_fast api bad out_of_fuel.
Proof. intros w. reflexivity. Qed.

Lemma fail_fast_goto {A} (bad : A -> bool) :
  fail_fast api bad (goto errexit).
Proof. intros w. cbn. split; reflexivity. Qed.

Lemma fail_fast_emit (bad : unit -> bool) e :
  is_transfer e = false -> fail_fast api bad (emit api e).
Proof.
  intros H w. cbn [emit].
  assert (Hc : clean [e]).
  { unfold clean. cbn. destruct e; try discriminate H; reflexivity. }
  split; [apply clean_stops, Hc | intros _; exact Hc].
Qed.

Lemma fail_fast_bind {A B} (bad : A -> bool) (bad' : B -> bool)
    (m : M api A) (f : A -> M api B) :
  fail_fast api bad m ->
  (forall a, if bad a then gives_up api bad' (f a)
             else fail_fast api bad' (f a)) ->
  fail_fast api bad' (bind m f).
Proof.
  intros Hm Hf w. unfold bind. specialize (Hm w).
  destruct (m w) as [[[a|l|c|] w1] t1]; try assumption.
  destruct Hm as [Hs Hc]. specialize (Hf a).
  destruct (bad a).
  - specialize (Hf w1).
    destruct (f a w1) as [[[b|l|c|] w2] t2]; try contradiction;
      destruct Hf as [Hb Hq].
    + split; [apply stops_then_silent; assumption|].
      intros Hb'. rewrite Hb in Hb'. discriminate.
    + split; [exact Hb | apply stops_then_silent; assumption].
  - specialize (Hc eq_refl). specialize (Hf w1).
    destruct (f a w1) as [[[b|l|c|] w2] t2]; try contradiction.
    + destruct Hf as [Hs2 Hc2].
      split; [apply stops_after_clean; assumption|].
      intros Hb. apply clean_app; auto.
    + destruct Hf as [Hl Hs2].
      split; [exact Hl | apply stops_after_clean; assumption].
    + apply clean_app; assumption.
Qed.

(** After a step that cannot fail. *)
Lemma fail_fast_then {A B} (bad' : B -> bool)
    (m : M api A) (f : A -> M api B) :
  fail_fast api (fun _ => false) m ->
  (forall a, fail_fast api bad' (f a)) ->
  fail_fast api bad' (bind m f).
Proof.
  intros Hm Hf. apply (fail_fast_bind (fun _ => false)); assumption.
Qed.

Lemma fail_fast_if {A} (bad : A -> bool) (c : bool) (m1 m2 : M api A) :
  fail_fast api bad m1 -> fail_fast api bad m2 ->
  fail_fast api bad (if c then m1 else m2).
Proof. destruct c; auto. Qed.

Lemma fail_fast_print (bad : unit -> bool) out fmt args :
  fail_fast api bad (fprintf api out fmt args).
Proof. apply fail_fast_emit. reflexivity. Qed.

Lemma fail_fast_usleep (bad : unit -> bool) usec :
  fail_fast api bad (usleep api usec).
Proof. apply fail_fast_emit. reflexivity. Qed.

Lemma fail_fast_dump (bad : unit -> bool) buf n :
  forall i, fail_fast api bad (dump_bytes api buf i n).
Proof.
  induction n as [|n IH]; intros i; cbn [dump_bytes].
  - apply fail_fast_ret.
  - apply fail_fast_then; [apply fail_fast_print | intros _; apply IH].
Qed.

Lemma fail_fast_send devh buf len :
  fail_fast api (fun res => negb (res =? 16))
    (hid_send_feature_report api devh buf len).
Proof.
  intros w. unfold hid_send_feature_report.
  destruct (on_send api _ w) as [res w1].
  unfold clean. cbn. destruct (negb (res =? 16)); split; auto; discriminate.
Qed.

Lemma fail_fast_get devh buf len :
  fail_fast api (fun r => negb (fst r =? 16))
    (hid_get_feature_report api devh buf len).
Proof.
  intros w. unfold hid_get_feature_report.
  destruct (on_get api _ len w) as [[res data] w1].
  unfold clean. cbn. destruct (negb (res =? 16)); split; auto; discriminate.
Qed.

Lemma gives_up_ret {A} (bad : A -> bool) (a : A) :
  bad a = true -> gives_up api bad (ret a).
Proof. intros H w. split; [exact H | reflexivity]. Qed.

Lemma gives_up_goto {A} (bad : A -> bool) :
  gives_up api bad (goto errexit).
Proof. intros w. split; reflexivity. Qed.

Lemma gives_up_print {A} (bad : A -> bool) out fmt args (k : M api A) :
  gives_up api bad k -> gives_up api bad (fprintf api out fmt args;; k).
Proof.
  intros H w. unfold bind, fprintf, emit. specialize (H w).
  destruct (k w) as [[[a|l|c|] w1] t]; try contradiction;
    destruct H as [H1 H2]; (split; [exact H1 | exact H2]).
Qed.
End FailFastRules.

(** Takes a [fail_fast] goal apart along the structure of the code. *)
Ltac fails_fast :=
  repeat first
    [ progress intros
    | apply fail_fast_ret
    | apply fail_fast_out_of_fuel
    | apply fail_fast_goto
    | apply fail_fast_print
    | apply fail_fast_usleep
    | apply fail_fast_dump
    | apply gives_up_goto
    | apply gives_up_print
    | apply gives_up_ret; reflexivity
    | match goal with
      | |- fail_fast _ _ (bind (fprintf _ _ _ _) _) => apply fail_fast_then
      | |- fail_fast _ _ (bind (printf _ _ _) _) => apply fail_fast_then
      | |- fail_fast _ _ (bind (usleep _ _) _) => apply fail_fast_then
      | |- fail_fast _ _ (bind (dump_bytes _ _ _ _) _) => apply fail_fast_then
      | |- fail_fast _ _ (bind (if _ then _ else _) _) => apply fail_fast_then
      | |- fail_fast _ _ (if _ then _ else _) => apply fail_fast_if
      end ].

Section FailFastCode.
Context (api : hidapi).

Lemma efw_get_info_fail_fast devh :
  fail_fast api (fun r => negb (r =? 0)) (EFW.efw_get_info api devh).
Proof.
  unfold EFW.efw_get_info. change ZWO_REPORT_LEN with 16.
  apply (fail_fast_bind api (fun res => negb (res =? 16)));
    [apply fail_fast_send|].
  intros res. destruct (negb (res =? 16)); [fails_fast|].
  apply (fail_fast_bind api (fun r => negb (fst r =? 16)));
    [apply fail_fast_get|].
  intros [gres buf]. cbn [fst]. destruct (negb (gres =? 16)); fails_fast.
Qed.

Lemma efw_set_position_fail_fast devh slot :
  fail_fast api (fun r => negb (r =? 0))
    (EFW.efw_set_position api devh slot).
Proof.
  unfold EFW.efw_set_position. change ZWO_REPORT_LEN with 16.
  apply fail_fast_if; [fails_fast|].
  apply (fail_fast_bind api (fun res => negb (res =? 16)));
    [apply fail_fast_send|].
  intros res. destruct (negb (res =? 16)); fails_fast.
Qed.

Lemma efw_get_position_fail_fast devh slotret :
  fail_fast api (fun r => fst r =? -1)
    (EFW.efw_get_position api devh slotret).
Proof.
  unfold EFW.efw_get_position. change ZWO_REPORT_LEN with 16.
  destruct slotret as [slot|]; [|fails_fast].
  apply (fail_fast_bind api (fun res => negb (res =? 16)));
    [apply fail_fast_send|].
  intros res. destruct (negb (res =? 16)); [fails_fast|].
  apply (fail_fast_bind api (fun r => negb (fst r =? 16)));
    [apply fail_fast_get|].
  intros [gres buf]. cbn [fst]. destruct (negb (gres =? 16)); fails_fast.
Qed.

Lemma eaf_set_position_fail_fast devh pos :
  fail_fast api (fun r => negb (r =? 0))
    (EAF.eaf_set_position api devh pos).
Proof.
  unfold EAF.eaf_set_position. change ZWO_REPORT_LEN with 16.
  apply (fail_fast_bind api (fun res => negb (res =? 16)));
    [apply fail_fast_send|].
  intros res. destruct (negb (res =? 16)); fails_fast.
Qed.

Lemma eaf_get_position_fail_fast devh posret posmaxret :
  fail_fast api (fun r => fst (fst r) =? -1)
    (EAF.eaf_get_position api devh posret posmaxret).
Proof.
  unfold EAF.eaf_get_position. change ZWO_REPORT_LEN with 16.
  destruct posret as [pos|]; [|fails_fast].
  apply (fail_fast_bind api (fun res => negb (res =? 16)));
    [apply fail_fast_send|].
  intros res. destruct (negb (res =? 16)); [fails_fast|].
  apply (fail_fast_bind api (fun r => negb (fst r =? 16)));
    [apply fail_fast_get|].
  intros [gres buf]. cbn [fst]. destruct (negb (gres =? 16)); fails_fast.
Qed.

Lemma print_strings_fail_fast apple devh :
  fail_fast api (fun _ => false) (EFW.print_strings api apple devh).
Proof.
  unfold EFW.print_strings.
  apply fail_fast_if; [fails_fast|].
  apply fail_fast_then.
  { intros w. unfold hid_get_manufacturer_string.
    destruct (on_manufacturer api w). split; reflexivity. }
  intros res. apply fail_fast_if; [fails_fast|].
  apply fail_fast_then; [fails_fast|]. intros _.
  apply fail_fast_then.
  { intros w. unfold hid_get_product_string.
    destruct (on_product api w). split; reflexivity. }
  intros res2. fails_fast.
Qed.

Lemma efw_wait_settled_fail_fast devh fuel :
  forall slot,
    fail_fast api (fun _ => false) (EFW.wait_settled api fuel devh slot).
Proof.
  induction fuel as [|fuel IH]; intros slot; cbn [EFW.wait_settled].
  - fails_fast.
  - apply (fail_fast_bind api (fun r => fst r =? -1));
      [apply efw_get_position_fail_fast|].
    intros [res slotp]. cbn [fst].
    destruct (res =? -1); fails_fast; apply IH.
Qed.

Lemma poll_window_fail_fast devh next n :
  forall i slot,
    fail_fast api (fun _ => false)
      (EFW.poll_window api n i devh next slot).
Proof.
  induction n as [|n IH]; intros i slot; cbn [EFW.poll_window].
  - fails_fast.
  - apply (fail_fast_bind api (fun r => fst r =? -1));
      [apply efw_get_position_fail_fast|].
    intros [res slotp]. cbn [fst].
    destruct (res =? -1); fails_fast; apply IH.
Qed.

Lemma move_loop_fail_fast devh target fuel :
  forall slot,
    fail_fast api (fun _ => false)
      (EFW.move_loop api fuel devh slot target).
Proof.
  induction fuel as [|fuel IH]; intros slot; cbn [EFW.move_loop].
  - fails_fast.
  - apply fail_fast_if; [fails_fast|].
    apply fail_fast_then; [fails_fast|]. intros _.
    apply (fail_fast_bind api (fun r => negb (r =? 0)));
      [apply efw_set_position_fail_fast|].
    intros r. destruct (negb (r =? 0)); [fails_fast|].
    apply fail_fast_then; [apply poll_window_fail_fast|].
    intros [i slot']. apply fail_fast_then; [fails_fast|].
    intros _. apply IH.
Qed.

Lemma efw_session_fail_fast apple fuel devh targetslot :
  fail_fast api (fun _ => false)
    (EFW.session api apple fuel devh targetslot).
Proof.
  unfold EFW.session.
  apply fail_fast_then; [apply print_strings_fail_fast|]. intros _.
  apply (fail_fast_bind api (fun r => negb (r =? 0)));
    [apply efw_get_info_fail_fast|].
  intros r. destruct (negb (r =? 0)); [fails_fast|].
  apply fail_fast_then; [apply efw_wait_settled_fail_fast|]. intros slot.
  apply fail_fast_then; [apply move_loop_fail_fast|]. fails_fast.
Qed.

Lemma eaf_wait_settled_fail_fast devh fuel :
  forall pos posmax,
    fail_fast api (fun _ => false)
      (EAF.wait_settled api fuel devh pos posmax).
Proof.
  induction fuel as [|fuel IH]; intros pos posmax; cbn [EAF.wait_settled].
  - fails_fast.
  - apply (fail_fast_bind api (fun r => fst (fst r) =? -1));
      [apply eaf_get_position_fail_fast|].
    intros [[res posp] maxp]. cbn [fst].
    destruct (res =? -1); fails_fast; apply IH.
Qed.

Lemma track_loop_fail_fast devh target fuel :
  forall pos,
    fail_fast api (fun _ => false)
      (EAF.track_loop api fuel devh pos target).
Proof.
  induction fuel as [|fuel IH]; intros pos; cbn [EAF.track_loop].
  - fails_fast.
  - apply fail_fast_if; [fails_fast|].
    apply (fail_fast_bind api (fun r => fst (fst r) =? -1));
      [apply eaf_get_position_fail_fast|].
    intros [[res posp] maxp]. cbn [fst].
    destruct (res =? -1); fails_fast; apply IH.
Qed.

Lemma eaf_session_fail_fast fuel devh targetpos rel sign :
  fail_fast api (fun _ => false)
    (EAF.session api fuel devh targetpos rel sign).
Proof.
  unfold EAF.session, EAF.move.
  apply fail_fast_then; [apply eaf_wait_settled_fail_fast|].
  intros [pos posmax]. apply fail_fast_then; [fails_fast|]. intros _.
  apply fail_fast_if; [|fails_fast].
  apply fail_fast_then; [fails_fast|]. intros _.
  apply fail_fast_if; [fails_fast|].
  apply (fail_fast_bind api (fun r => negb (r =? 0)));
    [apply eaf_set_position_fail_fast|].
  intros r. destruct (negb (r =? 0)); [fails_fast|].
  apply fail_fast_then; [apply track_loop_fail_fast | fails_fast].
Qed.

Lemma around_session_fail_fast vendor product session w :
  (forall devh, fail_fast api (fun _ => false) (session devh)) ->
  let run := around_session api vendor product session w in
  stops_at_failure (trace_of run) = true
  /\ (existsb failed_transfer (trace_of run) = true ->
      exit_status run = Some 2).
Proof.
  intros Hs. unfold around_session.
  destruct (on_init api w) as [res w1].
  destruct (negb (res =? 0)); [cbn; auto|].
  destruct (on_open api _ _ w1) as [[devh|] w2]; [|cbn; auto].
  specialize (Hs devh w2).
  destruct (session devh w2) as [[[[]|[]|code|] w3] t];
    cbn [trace_of snd exit_status stops_at_failure failed_transfer existsb
         orb]; try contradiction.
  - destruct Hs as [_ Hc]. specialize (Hc eq_refl). split.
    + apply stops_after_clean; [exact Hc | reflexivity].
    + rewrite existsb_app, Hc. discriminate.
  - destruct Hs as [_ Hs]. split; [|reflexivity].
    apply stops_then_silent; [exact Hs | reflexivity].
  - destruct Hs as [Hl _]. discriminate Hl.
  - split; [apply clean_stops, Hs|]. rewrite Hs. discriminate.
Qed.
End FailFastCode.

(** X15. In both programs a transfer that does not move 16 bytes is the
    last transfer of the run: nothing more is sent to or read from the
    device, and the run ends with exit code 2. *)
Theorem failed_transfer_ends_the_run :
  (forall (api : hidapi) (apple : bool) (argv : list string) (fuel : nat)
          (w : world api),
      let run := EFW.main api apple argv fuel w in
      stops_at_failure (trace_of run) = true
      /\ (existsb failed_transfer (trace_of run) = true ->
          exit_status run = Some 2))
  /\ (forall (api : hidapi) (argv : list string) (fuel : nat)
             (w : world api),
        let run := EAF.main api argv fuel w in
        stops_at_failure (trace_of run) = true
        /\ (existsb failed_transfer (trace_of run) = true ->
            exit_status run = Some 2)).
Proof.
  split.
  - intros api apple argv fuel w. cbv zeta. rewrite efw_main_run.
    destruct (efw_target argv) as [targetslot|]; [|cbn; auto].
    apply around_session_fail_fast. intros devh.
    apply efw_session_fail_fast.
  - intros api argv fuel w. cbv zeta. rewrite eaf_main_run.
    destruct (eaf_target argv) as [[[tp rel] sign]|]; [|cbn; auto].
    apply around_session_fail_fast. intros devh.
    apply eaf_session_fail_fast.
Qed.

Lemma failed_transfer_ends_the_run_witness :
  exit_status
    (EFW.main (Sim.failing_at 3 Examples.settled_with_error_code) false
       ["zwoefw-set"; "6"]%string 50 O)
  = Some 2.
Proof.
  refine (proj2 (proj1 failed_transfer_ends_the_run
                   (Sim.failing_at 3 Examples.settled_with_error_code) false
                   ["zwoefw-set"; "6"]%string 50%nat O) _).
  vm_compute. reflexivity.
Defined.

(** X16. The focuser's tracking loop ends with the first report read in
    full that shows the target position, whatever its status byte: after
    that one query the loop is left with [pos] at the target. A nonzero
    status byte ("moving") only adds one sleep of 500 ms before
    [while (pos != targetpos)] ends the loop. *)
Theorem focuser_tracking_stops_on_target :
  forall (api : hidapi) (devh : hid_device) (fuel : nat) (pos target : Z)
         (w w1 w2 : world api) (data : list Z),
    pos <> target ->
    on_send api (firstn 16 EAF.position_request) w = (16, w1) ->
    on_get api 1 17 w1 = ((16, data), w2) ->
    EAF.be16 (report_buffer data) 8 9 = target ->
    let run := EAF.track_loop api (S fuel) devh pos target w in
    value_of run = Some target
    /\ sends (trace_of run) = 1%nat
    /\ sleeps (trace_of run)
       = if load (report_buffer data) 4 =? 0 then O else 1%nat.
Proof.
  intros api devh fuel pos target w w1 w2 data Hne Hs Hg Hpos run.
  pose proof (eaf_get_position_cases api devh pos None w) as H.
  rewrite Hs, Hg in H. cbv zeta in H. destruct H as [t [Hp E]].
  change (negb (16 =? 16)) with false in E. cbv iota in E.
  unfold eaf_verdict in E. rewrite Hpos in E.
  assert (Hsends : sends t = O) by (apply prints_no_sends, Hp).
  assert (Hsleeps : sleeps t = O) by (apply (prints_invisible t Hp)).
  assert (Erun :
    run = (Ret target, w2,
           (EvSend (firstn 16 EAF.position_request) 16
              :: EvGet 17 16 (report_buffer data) :: t)
           ++ EvPrint stdout "current pos = %d (target %ld)\n"
                [target; target]
           :: if load (report_buffer data) 4 =? 0 then []
              else [EvUsleep (500 * 1000)])).
  { unfold run. cbn [EAF.track_loop].
    replace (pos =? target) with false by (symmetry; apply Z.eqb_neq, Hne).
    unfold bind at 1. rewrite E. cbn [deref].
    destruct (load (report_buffer data) 4 =? 0); cbn [negb].
    - change (0 =? -1) with false. cbv iota.
      unfold bind at 1. unfold printf at 1. cbn [fprintf emit].
      change (0 =? 0) with true. rewrite Z.eqb_refl. reflexivity.
    - change (1 =? -1) with false. cbv iota.
      unfold bind at 1. unfold printf at 1. cbn [fprintf emit].
      change (1 =? 0) with false. cbn [andb].
      unfold bind at 1. cbn [usleep emit].
      replace (EAF.track_loop api fuel devh target target w2)
        with (@ret api Z target w2)
        by (destruct fuel; cbn [EAF.track_loop];
            rewrite Z.eqb_refl; reflexivity).
      reflexivity. }
  rewrite Erun. cbn [value_of trace_of snd].
  split; [reflexivity|].
  rewrite sends_app, sleeps_app. cbn [sends sleeps].
  rewrite Hsends, Hsleeps.
  destruct (load (report_buffer data) 4 =? 0); split; reflexivity.
Qed.

Lemma focuser_tracking_stops_on_target_witness :
  value_of
    (EAF.track_loop (Sim.fixed_report (Sim.focuser_report 1 130 60000))
       1 tt 100 130 tt)
  = Some 130.
Proof.
  refine (proj1 (focuser_tracking_stops_on_target
                   (Sim.fixed_report (Sim.focuser_report 1 130 60000))
                   tt 0 100 130 tt tt tt (Sim.focuser_report 1 130 60000)
                   _ _ _ _)).
  - lia.
  - reflexivity.
  - reflexivity.
  - reflexivity.
Defined.
